(** * Open-LLM-VTuber: the memory agent and its search-augmented turn loop

    A shallow embedding of

    - [src/open_llm_vtuber/agent/agents/basic_memory_agent.py]
      (class [BasicMemoryAgent]) and
    - [src/open_llm_vtuber/agent/tools/web_search_tool.py]
      (function [search_web]),

    followed by the properties of the conversation memory, of the search
    directive and of the bounded search loop.

    Python strings are modelled by [string]; a character is an [ascii],
    read as a code point below 256.  Dictionaries with a fixed set of keys are records, the result
    dictionaries of the search provider (arbitrary keys) are
    [gmap string string].  The language model, the search provider and the
    history store are the outside world: they are the fields of the class
    [Environment], and every call to them is recorded in a trace. *)

From Stdlib Require Import Ascii String DecimalString.
From stdpp Require Import base option list strings gmap.

(** ** Python string primitives *)

Module PyStr.

(** The line feed, written [\n] in the source. *)
Definition LF : string := String "010"%char EmptyString.

(** [str.isspace] on one character, which is also the class [\s] of
    [re] on a [str] pattern: TAB, LF, VT, FF, CR, FS, GS, RS, US, the
    space, NEL (133) and the no-break space (160). *)
Definition is_space (c : ascii) : bool :=
  let n := nat_of_ascii c in
  ((9 <=? n)%nat && (n <=? 13)%nat) || ((28 <=? n)%nat && (n <=? 32)%nat)
  || (n =? 133)%nat || (n =? 160)%nat.

(** Truth value of a string: [if s:]. *)
Definition truthy (s : string) : bool :=
  match s with EmptyString => false | String _ _ => true end.

(** [str.lstrip()] *)
Fixpoint lstrip (s : string) : string :=
  match s with
  | EmptyString => EmptyString
  | String c s' => if is_space c then lstrip s' else s
  end.

(** [str.rstrip()] *)
Fixpoint rstrip (s : string) : string :=
  match s with
  | EmptyString => EmptyString
  | String c s' =>
      match rstrip s' with
      | EmptyString => if is_space c then EmptyString else String c EmptyString
      | r => String c r
      end
  end.

(** [str.strip()] *)
Definition strip (s : string) : string := lstrip (rstrip s).

(** [sep.join(parts)] *)
Definition join (sep : string) (parts : list string) : string :=
  String.concat sep parts.

(** [str(n)] for a non-negative integer. *)
Definition of_nat (n : nat) : string := NilZero.string_of_uint (Nat.to_uint n).

(** Iterating over a string yields its characters, each a string of
    length one. *)
Fixpoint chars (s : string) : list string :=
  match s with
  | EmptyString => []
  | String c s' => String c EmptyString :: chars s'
  end.

(** [acc += token] over a whole token stream, starting from [acc]. *)
Definition accumulate (acc : string) (tokens : list string) : string :=
  foldl (fun a t => a +:+ t) acc tokens.

(** [p] is a prefix of [s]: the rest of [s] after [p], if so. *)
Fixpoint drop_prefix (p s : string) : option string :=
  match p with
  | EmptyString => Some s
  | String a p' =>
      match s with
      | EmptyString => None
      | String b s' => if Ascii.eqb a b then drop_prefix p' s' else None
      end
  end.

(** All characters of [s] satisfy [f]. *)
Fixpoint forallb (f : ascii -> bool) (s : string) : bool :=
  match s with
  | EmptyString => true
  | String c s' => f c && forallb f s'
  end.

End PyStr.

(** ** Messages and inputs *)

(** One part of a structured (multimodal) message content:
    [{"type": "text", "text": t}] or
    [{"type": "image_url", "image_url": {"url": u, "detail": d}}]. *)
Inductive ContentItem : Type :=
| TextItem (text : string)
| ImageUrlItem (url detail : string).

(** [message: str | List[Dict[str, Any]]] *)
Inductive Content : Type :=
| Text (s : string)
| Parts (items : list ContentItem).

(** A message dictionary: the keys ["role"] and ["content"] are always
    present, ["name"] and ["avatar"] only when they were given. *)
Record Message : Type := mkMessage {
  role : string;
  content : Content;
  name : option string;
  avatar : option string;
}.

(** [{"role": r, "content": c}] *)
Definition msg (r : string) (c : string) : Message :=
  mkMessage r (Text c) None None.

(** The two attributes of [DisplayText] that [_add_message] reads. *)
Record DisplayText : Type := mkDisplayText {
  dt_name : option string;
  dt_avatar : option string;
}.

Inductive TextSource : Type := INPUT | CLIPBOARD.

Inductive ImageSource : Type := CAMERA | SCREEN | IMG_CLIPBOARD | UPLOAD.

Record TextData : Type := mkTextData {
  td_source : TextSource;
  td_content : string;
}.

Record ImageData : Type := mkImageData {
  img_source : ImageSource;
  img_data : string;
}.

(** [BatchInput]: the texts and the images of one user turn ([images] is
    empty when the source has [None] or an empty list). *)
Record BatchInput : Type := mkBatchInput {
  texts : list TextData;
  images : list ImageData;
}.

(** One record of the persisted history, as [get_history] returns it. *)
Record HistoryMessage : Type := mkHistoryMessage {
  h_role : string;
  h_content : string;
}.

(** ** The agent *)

(** The attributes of [BasicMemoryAgent] that the conversation logic reads
    or writes.  The Live2D model, the TTS preprocessor configuration and
    the segmentation settings only parametrise the decorators around
    [chat_with_memory] and are left out. *)
Record BasicMemoryAgent : Type := mkAgent {
  _memory : list Message;
  _system : string;
  interrupt_method : string;
  _enable_web_search : bool;
  _interrupt_handled : bool;
}.

Definition with_memory (m : list Message) (a : BasicMemoryAgent) : BasicMemoryAgent :=
  mkAgent m (_system a) (interrupt_method a) (_enable_web_search a) (_interrupt_handled a).

Definition with_system (s : string) (a : BasicMemoryAgent) : BasicMemoryAgent :=
  mkAgent (_memory a) s (interrupt_method a) (_enable_web_search a) (_interrupt_handled a).

Definition with_interrupt_handled (b : bool) (a : BasicMemoryAgent) : BasicMemoryAgent :=
  mkAgent (_memory a) (_system a) (interrupt_method a) (_enable_web_search a) b.

(** The sentence appended to the system prompt under the ["user"]
    interrupt method. *)
Definition interrupt_notice : string :=
  PyStr.LF +:+ PyStr.LF +:+
  "If you received `[interrupted by user]` signal, you were interrupted.".

(** [set_system] *)
Definition set_system (system : string) (self : BasicMemoryAgent) : BasicMemoryAgent :=
  let system :=
    if String.eqb (interrupt_method self) "user"
    then system +:+ interrupt_notice
    else system in
  with_system system self.

(** The class attribute [_system], the value before [set_system] runs. *)
Definition default_system : string :=
  "You are an error message repeater. " +:+ PyStr.LF +:+
  "        Your job is repeating this error message: " +:+ PyStr.LF +:+
  "        'No system prompt set. Please set a system prompt'. " +:+ PyStr.LF +:+
  "        Don't say anything else." +:+ PyStr.LF +:+
  "        ".

(** [__init__] *)
Definition init (system : string) (interrupt_method : string)
    (enable_web_search : bool) : BasicMemoryAgent :=
  set_system system
    (mkAgent [] default_system interrupt_method enable_web_search false).

(** The text that [_add_message] keeps of a message content. *)
Definition text_content (message : Content) : string :=
  match message with
  | Parts items =>
      foldl (fun acc item =>
               match item with
               | TextItem t => acc +:+ t
               | ImageUrlItem _ _ => acc
               end) EmptyString items
  | Text s => s
  end.

Definition truthy_opt (o : option string) : bool :=
  match o with Some s => PyStr.truthy s | None => false end.

(** [message_data["name"] = n] and [message_data["avatar"] = v] *)
Definition set_name (n : option string) (m : Message) : Message :=
  mkMessage (role m) (content m) n (avatar m).

Definition set_avatar (v : option string) (m : Message) : Message :=
  mkMessage (role m) (content m) (name m) v.

(** [_add_message] *)
Definition _add_message (message : Content) (role : string)
    (display_text : option DisplayText) (self : BasicMemoryAgent) : BasicMemoryAgent :=
  let message_data := msg role (text_content message) in
  let message_data :=
    match display_text with
    | Some d =>
        let message_data :=
          if truthy_opt (dt_name d)
          then set_name (dt_name d) message_data else message_data in
        if truthy_opt (dt_avatar d)
        then set_avatar (dt_avatar d) message_data else message_data
    | None => message_data
    end in
  with_memory (_memory self ++ [message_data]) self.

(** The body of [set_memory_from_history], after [get_history] returned
    [messages]. *)
Definition load_history (messages : list HistoryMessage)
    (self : BasicMemoryAgent) : BasicMemoryAgent :=
  let self := with_memory [] self in
  let self := with_memory (_memory self ++ [msg "system" (_system self)]) self in
  foldl (fun self m =>
           with_memory
             (_memory self ++
                [msg (if String.eqb (h_role m) "human" then "user" else "assistant")
                     (h_content m)])
             self)
        self messages.

(** [self._memory[-1]["content"] = c] on a non-empty memory. *)
Definition set_last_content (c : string) (m : list Message) : list Message :=
  match reverse m with
  | [] => m
  | l :: before => reverse before ++ [mkMessage (role l) (Text c) (name l) (avatar l)]
  end.

(** [handle_interrupt] *)
Definition handle_interrupt (heard_response : string)
    (self : BasicMemoryAgent) : BasicMemoryAgent :=
  if _interrupt_handled self then self
  else
    let self := with_interrupt_handled true self in
    let self :=
      match last (_memory self) with
      | Some l =>
          if String.eqb (role l) "assistant"
          then with_memory (set_last_content (heard_response +:+ "...") (_memory self)) self
          else if PyStr.truthy heard_response
               then with_memory (_memory self ++ [msg "assistant" (heard_response +:+ "...")]) self
               else self
      | None =>
          if PyStr.truthy heard_response
          then with_memory (_memory self ++ [msg "assistant" (heard_response +:+ "...")]) self
          else self
      end in
    with_memory
      (_memory self ++
         [msg (if String.eqb (interrupt_method self) "system" then "system" else "user")
              "[Interrupted by user]"])
      self.

(** [reset_interrupt] *)
Definition reset_interrupt (self : BasicMemoryAgent) : BasicMemoryAgent :=
  with_interrupt_handled false self.

(** The description of an image source in [_to_text_prompt]. *)
Definition source_desc (s : ImageSource) : string :=
  match s with
  | CAMERA => "captured from camera"
  | SCREEN => "screenshot"
  | IMG_CLIPBOARD => "from clipboard"
  | UPLOAD => "uploaded"
  end.

(** [_to_text_prompt] *)
Definition _to_text_prompt (input_data : BatchInput) : string :=
  let message_parts :=
    foldl (fun parts text_data =>
             match td_source text_data with
             | INPUT => parts ++ [td_content text_data]
             | CLIPBOARD =>
                 parts ++ ["[Clipboard content: " +:+ td_content text_data +:+ "]"]
             end) [] (texts input_data) in
  let message_parts :=
    match images input_data with
    | [] => message_parts
    | _ =>
        let parts := message_parts ++ [PyStr.LF +:+ "Images in this message:"] in
        snd (foldl (fun '(i, parts) img_data =>
                      (S i,
                       parts ++ ["- Image " +:+ PyStr.of_nat i +:+ " (" +:+
                                 source_desc (img_source img_data) +:+ ")"]))
                   (1%nat, parts) (images input_data))
    end in
  PyStr.join PyStr.LF message_parts.

(** The user message that [_to_messages] builds for the model. *)
Definition user_message (input_data : BatchInput) : Message :=
  match images input_data with
  | [] => msg "user" (_to_text_prompt input_data)
  | _ =>
      let content := [TextItem (_to_text_prompt input_data)] in
      let content :=
        foldl (fun content img =>
                 content ++ [ImageUrlItem (img_data img) "auto"])
              content (images input_data) in
      mkMessage "user" (Parts content) None None
  end.

(** [_to_messages]: the per-turn message list, and the agent with the user
    message recorded in its memory. *)
Definition _to_messages (input_data : BatchInput) (self : BasicMemoryAgent)
    : list Message * BasicMemoryAgent :=
  let messages := _memory self in
  let um := user_message input_data in
  let messages := messages ++ [um] in
  (messages, _add_message (content um) "user" None self).

(** ** The search tool ([web_search_tool.py]) *)

(** What a call that may raise does: it returns a value, or it raises an
    exception, of which the handlers only use [str(e)]. *)
Inductive Outcome (A : Type) : Type :=
| Returned (a : A)
| Raised (e : string).
Arguments Returned {A} a.
Arguments Raised {A} e.

(** Sequencing: an exception of the first part skips the second. *)
Definition and_then {A B} (c : Outcome A) (k : A -> Outcome B) : Outcome B :=
  match c with
  | Returned a => k a
  | Raised e => Raised e
  end.

(** [try: body  except Exception as e: handler(e)] *)
Definition try_except {A} (body : Outcome A) (handler : string -> Outcome A)
    : Outcome A :=
  match body with
  | Returned a => Returned a
  | Raised e => handler e
  end.

(** One result dictionary of the provider. *)
Abbreviation SearchResult := (gmap string string).

(** [result.get(key, 'N/A')] *)
Definition get_or_na (result : SearchResult) (key : string) : string :=
  default "N/A" (result !! key).

(** The block appended to [results_output] for the result at index [i]. *)
Definition result_block (i : nat) (result : SearchResult) : string :=
  "Result " +:+ PyStr.of_nat (i + 1) +:+ ":" +:+ PyStr.LF +:+
  "Title: " +:+ get_or_na result "title" +:+ PyStr.LF +:+
  "Snippet: " +:+ get_or_na result "body" +:+ PyStr.LF +:+
  "URL: " +:+ get_or_na result "href" +:+ PyStr.LF.

Definition NO_RESULTS : string := "No results found for your query.".

(** The statements of [search_web] that follow the call of [ddgs.text],
    which returned [search_results]. *)
Definition render_results (search_results : list SearchResult) : string :=
  let results_output : list string := [] in
  match search_results with
  | [] => NO_RESULTS
  | _ =>
      let results_output :=
        snd (foldl (fun '(i, results_output) result =>
                      (S i, results_output ++ [result_block i result]))
                   (0%nat, results_output) search_results) in
      match results_output with
      | [] => NO_RESULTS
      | _ => PyStr.join PyStr.LF results_output
      end
  end.

(** [search_web], given what the call of the provider did. *)
Definition search_web_of (provider : Outcome (list SearchResult)) : Outcome string :=
  try_except
    (and_then provider (fun search_results => Returned (render_results search_results)))
    (fun e => Returned ("An error occurred during the web search: " +:+ e)).

(** ** The search directive *)

(** The pattern [\[SEARCH:\s*(.*?)\]], matched the way a backtracking
    engine does.  Each function returns the text captured by group 1. *)
Module Directive.

Definition TAG : string := "[SEARCH:".

(** [(.*?)\]] at the head of [s]: the lazy group grows one character at
    a time, never over a line feed, until a closing bracket follows. *)
Fixpoint lazy_group (s : string) : option string :=
  match s with
  | EmptyString => None
  | String c s' =>
      if Ascii.eqb c "]"%char then Some EmptyString
      else if Ascii.eqb c "010"%char then None
      else String c <$> lazy_group s'
  end.

(** [\s*(.*?)\]] at the head of [s]: the greedy star takes a white-space
    character and goes on; when the rest fails it gives the character
    back and the group starts here. *)
Fixpoint spaces_then_group (s : string) : option string :=
  match s with
  | EmptyString => lazy_group s
  | String c s' =>
      if PyStr.is_space c
      then match spaces_then_group s' with
           | Some g => Some g
           | None => lazy_group s
           end
      else lazy_group s
  end.

(** The whole pattern at the head of [s]. *)
Definition match_here (s : string) : option string :=
  rest ← PyStr.drop_prefix TAG s; spaces_then_group rest.

(** [re.search(pattern, s)]: the match at the leftmost position that has
    one; [None] when no position has. *)
Fixpoint re_search (s : string) : option string :=
  match match_here s with
  | Some g => Some g
  | None =>
      match s with
      | EmptyString => None
      | String _ s' => re_search s'
      end
  end.

(** [search_match.group(1).strip()] *)
Definition search_query (s : string) : option string :=
  PyStr.strip <$> re_search s.

End Directive.

(** ** The outside world *)

(** What one model call streams: the tokens it produced and, when the call
    failed, the exception raised after them. *)
Record Stream : Type := mkStream {
  tokens : list string;
  failure : option string;
}.

(** The collaborators of the agent.  [chat_completion] is the
    [StatelessLLMInterface] method, [ddgs_text] is [DDGS().text],
    [get_history] is the history store and [group_conversation_prompt] is
    the prompt template of [prompt_loader], filled with the name of the
    human and the names of the other participants.  The first two may
    depend on, and change, the state of the world. *)
Class Environment : Type := {
  World : Type;
  chat_completion : list Message -> string -> World -> Stream * World;
  ddgs_text : string -> nat -> World -> Outcome (list SearchResult) * World;
  get_history : string -> string -> World -> list HistoryMessage;
  group_conversation_prompt : string -> string -> string;
}.

(** The text a stream amounts to: [raw_llm_output_for_search_check] once
    the [async for] is over. *)
Definition raw_of (out : Stream) : string :=
  PyStr.accumulate EmptyString (tokens out).

(** What a caller can observe of a turn. *)
Inductive Event : Type :=
| EvModel (messages : list Message) (system : string) (out : Stream)
| EvSearch (query : string) (num_results : nat) (result : Outcome string)
| EvYield (token : string).

Definition is_yield (e : Event) : bool :=
  match e with EvYield _ => true | _ => false end.

(** The tokens handed to the downstream pipeline, in order. *)
Definition yielded (t : list Event) : list string :=
  omap (fun e => match e with EvYield s => Some s | _ => None end) t.

(** The searches issued, in order: query and result-count hint. *)
Definition searches (t : list Event) : list (string * nat) :=
  omap (fun e => match e with EvSearch q n _ => Some (q, n) | _ => None end) t.

(** The model calls made, in order: messages and system prompt. *)
Definition model_calls (t : list Event) : list (list Message * string) :=
  omap (fun e => match e with EvModel m s _ => Some (m, s) | _ => None end) t.

(** How a computation ends. *)
Inductive Result (A : Type) : Type :=
| Ok (a : A)
| Error (e : string)
| OutOfFuel.
Arguments Ok {A} a.
Arguments Error {A} e.
Arguments OutOfFuel {A}.

Section Turn.
Context `{Env : Environment}.

(** [search_web] *)
Definition search_web (query : string) (num_results : nat) (w : World)
    : Outcome string * World :=
  let '(provider, w) := ddgs_text query num_results w in
  (search_web_of provider, w).

(** [set_memory_from_history] *)
Definition set_memory_from_history (conf_uid history_uid : string) (w : World)
    (self : BasicMemoryAgent) : BasicMemoryAgent :=
  load_history (get_history conf_uid history_uid w) self.

(** [start_group_conversation] *)
Definition start_group_conversation (human_name : string)
    (ai_participants : list string) (self : BasicMemoryAgent) : BasicMemoryAgent :=
  let other_ais := PyStr.join ", " ai_participants in
  let group_context := group_conversation_prompt human_name other_ais in
  with_memory (_memory self ++ [msg "user" group_context]) self.

(** The state a turn runs in: the agent, the world and the events so
    far. *)
Record Machine : Type := mkMachine {
  agent : BasicMemoryAgent;
  world : World;
  trace : list Event;
}.

(** A step of a turn: it ends in a [Result] and leaves a machine behind,
    also when it raises. *)
Definition Turn (A : Type) : Type := Machine -> Result A * Machine.

Definition ret {A} (a : A) : Turn A := fun m => (Ok a, m).

Definition bind {A B} (c : Turn A) (k : A -> Turn B) : Turn B :=
  fun m =>
    match c m with
    | (Ok a, m') => k a m'
    | (Error e, m') => (Error e, m')
    | (OutOfFuel, m') => (OutOfFuel, m')
    end.

Definition raise {A} (e : string) : Turn A := fun m => (Error e, m).

Definition out_of_fuel {A} : Turn A := fun m => (OutOfFuel, m).

Definition emit (e : Event) : Turn unit :=
  fun m => (Ok tt, mkMachine (agent m) (world m) (trace m ++ [e])).

Definition get_agent : Turn BasicMemoryAgent := fun m => (Ok (agent m), m).

Definition update_agent (f : BasicMemoryAgent -> BasicMemoryAgent) : Turn unit :=
  fun m => (Ok tt, mkMachine (f (agent m)) (world m) (trace m)).

(** A call into the world. *)
Definition ask {A} (f : World -> A * World) : Turn A :=
  fun m => let '(a, w) := f (world m) in (Ok a, mkMachine (agent m) w (trace m)).

End Turn.

Declare Scope turn_scope.
Delimit Scope turn_scope with turn.
Notation "x <~ c ;; k" := (bind c (fun x => k))
  (at level 100, c at next level, right associativity) : turn_scope.
Notation "c ;;; k" := (bind c (fun _ => k))
  (at level 100, right associativity) : turn_scope.

Definition MAX_SEARCH_ITERATIONS : nat := 2.

Section Chat.
Context `{Env : Environment}.
Local Open Scope turn_scope.

(** [token_stream = chat_func(messages, self._system)] followed by the
    [async for] that accumulates the tokens: the accumulated text, or the
    exception of the stream. *)
Definition drain_model (messages : list Message) : Turn string :=
  self <~ get_agent ;;
  out <~ ask (chat_completion messages (_system self)) ;;
  emit (EvModel messages (_system self) out) ;;;
  let raw_llm_output_for_search_check := raw_of out in
  match failure out with
  | Some e => raise e
  | None => ret raw_llm_output_for_search_check
  end.

(** [search_web(search_query, num_results=3)] as the loop calls it. *)
Definition do_search (search_query : string) (num_results : nat) : Turn string :=
  r <~ ask (search_web search_query num_results) ;;
  emit (EvSearch search_query num_results r) ;;;
  match r with
  | Returned search_results_str => ret search_results_str
  | Raised e => raise e
  end.

(** [for char_token in raw: yield char_token] *)
Fixpoint yield_all (cs : list string) : Turn unit :=
  match cs with
  | [] => ret tt
  | c :: cs' => emit (EvYield c) ;;; yield_all cs'
  end.

Definition search_context_message (search_query search_results_str : string) : string :=
  "Web search for query '" +:+ search_query +:+
  "' yielded the following results:" +:+ PyStr.LF +:+
  search_results_str +:+ PyStr.LF +:+
  "Please use these results to answer the user's request.".

(** The [while] loop of [chat_with_memory].  [fuel] bounds the number of
    iterations of the model; the loop itself is governed by
    [current_search_iteration].  The result is the value of
    [complete_response] when the loop is left ([complete_response] is
    not bound before the first iteration, which assigns it). *)
Fixpoint search_loop (fuel : nat) (current_search_iteration : nat)
    (messages : list Message) (complete_response : string) : Turn string :=
  if (current_search_iteration <? MAX_SEARCH_ITERATIONS)%nat then
    match fuel with
    | O => out_of_fuel
    | S fuel =>
        let current_search_iteration := (current_search_iteration + 1)%nat in
        raw <~ drain_model messages ;;
        let complete_response := EmptyString in
        self <~ get_agent ;;
        let search_match :=
          if _enable_web_search self then Directive.re_search raw else None in
        match search_match with
        | Some group1 =>
            let search_query := PyStr.strip group1 in
            search_results_str <~ do_search search_query 3 ;;
            let messages :=
              messages ++
                [msg "assistant" raw;
                 msg "user" (search_context_message search_query search_results_str)] in
            search_loop fuel current_search_iteration messages complete_response
        | None =>
            yield_all (PyStr.chars raw) ;;;
            let complete_response := raw in
            ret complete_response
        end
    end
  else ret complete_response.

(** [chat_with_memory], the generator run to its end. *)
Definition chat_with_memory (input_data : BatchInput) : Turn unit :=
  self <~ get_agent ;;
  let '(messages, self) := _to_messages input_data self in
  update_agent (fun _ => self) ;;;
  complete_response <~
    search_loop MAX_SEARCH_ITERATIONS 0 messages EmptyString ;;
  update_agent (_add_message (Text complete_response) "assistant" None).

(** One turn of an agent in a world, from an empty trace. *)
Definition run_turn (input_data : BatchInput) (self : BasicMemoryAgent) (w : World)
    : Result unit * Machine :=
  chat_with_memory input_data (mkMachine self w []).

End Chat.

(** ** The life of an agent

    What the owner of an agent does with it after its construction. *)
Inductive Op : Type :=
| OpChat (input_data : BatchInput)
| OpHandleInterrupt (heard_response : string)
| OpResetInterrupt
| OpSetMemoryFromHistory (conf_uid history_uid : string)
| OpStartGroupConversation (human_name : string) (ai_participants : list string).

Section Life.
Context `{Env : Environment}.

Definition on_agent (f : BasicMemoryAgent -> BasicMemoryAgent) (m : Machine) : Machine :=
  mkMachine (f (agent m)) (world m) (trace m).

(** One operation; a turn that raises leaves the machine it reached. *)
Definition run_op (m : Machine) (op : Op) : Machine :=
  match op with
  | OpChat input_data => snd (chat_with_memory input_data m)
  | OpHandleInterrupt heard_response => on_agent (handle_interrupt heard_response) m
  | OpResetInterrupt => on_agent reset_interrupt m
  | OpSetMemoryFromHistory conf_uid history_uid =>
      on_agent (set_memory_from_history conf_uid history_uid (world m)) m
  | OpStartGroupConversation human_name ai_participants =>
      on_agent (start_group_conversation human_name ai_participants) m
  end.

Definition run_ops (ops : list Op) (m : Machine) : Machine :=
  foldl run_op m ops.

End Life.

(** ** The shape of a turn *)

Section Rounds.
Context `{Env : Environment}.

(** [rounds sys enabled n messages cr w t res w']: from the world [w],
    the message list [messages] and the pending value [cr] of
    [complete_response], at most [n] iterations of the loop produce the
    events [t], end as [res] says and leave the world [w'].  An iteration
    is a model call that fails, a model call whose text is final and is
    yielded character by character, or a model call followed by one
    search. *)
Inductive rounds (sys : string) (enabled : bool)
  : nat -> list Message -> string -> World ->
    list Event -> Result string -> World -> Prop :=
| rounds_exit messages cr w :
    rounds sys enabled 0 messages cr w [] (Ok cr) w
| rounds_fail n messages cr w out w1 e :
    chat_completion messages sys w = (out, w1) ->
    failure out = Some e ->
    rounds sys enabled (S n) messages cr w
      [EvModel messages sys out] (Error e) w1
| rounds_final n messages cr w out w1 :
    chat_completion messages sys w = (out, w1) ->
    failure out = None ->
    (if enabled then Directive.re_search (raw_of out) else None) = None ->
    rounds sys enabled (S n) messages cr w
      (EvModel messages sys out :: (EvYield <$> PyStr.chars (raw_of out)))
      (Ok (raw_of out)) w1
| rounds_search n messages cr w out w1 group1 r w2 t res w3 :
    chat_completion messages sys w = (out, w1) ->
    failure out = None ->
    enabled = true ->
    Directive.re_search (raw_of out) = Some group1 ->
    search_web (PyStr.strip group1) 3 w1 = (Returned r, w2) ->
    rounds sys enabled n
      (messages ++
         [msg "assistant" (raw_of out);
          msg "user" (search_context_message (PyStr.strip group1) r)])
      EmptyString w2 t res w3 ->
    rounds sys enabled (S n) messages cr w
      (EvModel messages sys out ::
       EvSearch (PyStr.strip group1) 3 (Returned r) :: t)
      res w3.

(** How [chat_with_memory] ends when its loop ends as [res]. *)
Definition turn_result (res : Result string) : Result unit :=
  match res with
  | Ok _ => Ok tt
  | Error e => Error e
  | OutOfFuel => OutOfFuel
  end.

(** The agent that [chat_with_memory] leaves when its loop ends as
    [res]: the user message is recorded at once, the assistant message
    after the loop. *)
Definition turn_agent (input_data : BatchInput) (self : BasicMemoryAgent)
    (res : Result string) : BasicMemoryAgent :=
  let self := snd (_to_messages input_data self) in
  match res with
  | Ok complete_response =>
      _add_message (Text complete_response) "assistant" None self
  | _ => self
  end.

End Rounds.

(** The stream of the last model call of a trace. *)
Definition last_output (t : list Event) : option Stream :=
  last (omap (fun e => match e with EvModel _ _ out => Some out | _ => None end) t).

(** ** The specification's view of the data *)

(** The log that a history amounts to: the role ["human"] reads ["user"],
    any other role reads ["assistant"], the content is kept. *)
Definition history_entry (h : HistoryMessage) : Message :=
  msg (if String.eqb (h_role h) "human" then "user" else "assistant") (h_content h).

(** The listing of a non-empty result set: one entry per result, numbered
    from 1, in the order of the provider. *)
Definition listing (results : list SearchResult) : string :=
  PyStr.join PyStr.LF
    (imap (fun i r =>
             "Result " +:+ PyStr.of_nat (S i) +:+ ":" +:+ PyStr.LF +:+
             "Title: " +:+ default "N/A" (r !! "title") +:+ PyStr.LF +:+
             "Snippet: " +:+ default "N/A" (r !! "body") +:+ PyStr.LF +:+
             "URL: " +:+ default "N/A" (r !! "href") +:+ PyStr.LF)
          results).

(** No closing bracket occurs in [s]. *)
Definition bracket_free (s : string) : bool :=
  PyStr.forallb (fun c => negb (Ascii.eqb c "]"%char)) s.

(** The messages of a log that carry the role ["assistant"]. *)
Definition assistant_entries (log : list Message) : list Message :=
  List.filter (fun m => String.eqb (role m) "assistant") log.

(** ** Scripted worlds

    A world in which the model answers its successive calls from a script
    and the provider always does the same thing: the state of the world is
    the number of model calls made so far. *)
Module Scripted.

Definition reply (text : string) : Stream := mkStream (PyStr.chars text) None.

Definition env (script : list Stream) (provider : Outcome (list SearchResult))
    (history : list HistoryMessage) : Environment := {|
  World := nat;
  chat_completion := fun _ _ n => (default (mkStream [] None) (script !! n), S n);
  ddgs_text := fun _ _ n => (provider, n);
  get_history := fun _ _ _ => history;
  group_conversation_prompt := fun human_name other_ais =>
    human_name +:+ " talks with " +:+ other_ais;
|}.

Definition user_says (text : string) : BatchInput :=
  mkBatchInput [mkTextData INPUT text] [].

End Scripted.

(** The scenarios the properties are tried on. *)
Module Scenario.
Import Scripted.

(** Search disabled, the model echoes the user. *)
Definition echo_env : Environment :=
  env [reply "Echo: Hello, world!"] (Returned []) [].

Definition plain_agent : BasicMemoryAgent :=
  init "You are a helpful assistant." "user" false.

(** Search disabled, the model writes a directive all the same. *)
Definition ignored_directive : string :=
  "I should search for this. [SEARCH: Large Language Models]".

Definition ignored_env : Environment :=
  env [reply ignored_directive] (Returned []) [].

(** Search enabled, one search round, then an answer. *)
Definition searching_agent : BasicMemoryAgent :=
  init "You are a helpful assistant. Use [SEARCH: query] for web search." "user" true.

Definition first_attempt : string :=
  "I need to find that out. [SEARCH: latest AI news]".

Definition final_answer : string :=
  "AI is advancing rapidly according to recent news.".

Definition news : list SearchResult :=
  [ {[ "title" := "AI news"; "body" := "AI is advancing rapidly.";
       "href" := "example.com/ai_news" ]} ].

Definition one_round_env : Environment :=
  env [reply first_attempt; reply final_answer] (Returned news) [].

(** Search enabled, the model asks for a search every time. *)
Definition always_searches : string :=
  "Okay, I'll search again. [SEARCH: something else]".

Definition loop_env : Environment :=
  env [reply always_searches; reply always_searches; reply always_searches]
      (Returned []) [].

(** Search enabled, the second model call fails. *)
Definition failing_env : Environment :=
  env [reply first_attempt; mkStream ["AI is"] (Some "connection lost")]
      (Raised "rate limit") [].

(** A persisted history. *)
Definition some_history : list HistoryMessage :=
  [mkHistoryMessage "human" "Hi"; mkHistoryMessage "ai" "Hello!";
   mkHistoryMessage "system" "note"].

End Scenario.

(** ** Closed forms of what the agent builds *)

(** The part of the text prompt that one text input gives. *)
Definition text_part (text_data : TextData) : string :=
  match td_source text_data with
  | INPUT => td_content text_data
  | CLIPBOARD => "[Clipboard content: " +:+ td_content text_data +:+ "]"
  end.

(** The line of the text prompt for the image at position [i], counted
    from 0. *)
Definition image_line (i : nat) (img : ImageData) : string :=
  "- Image " +:+ PyStr.of_nat (S i) +:+ " (" +:+ source_desc (img_source img) +:+ ")".

(** The part of a structured content that one image gives. *)
Definition image_item (img : ImageData) : ContentItem :=
  ImageUrlItem (img_data img) "auto".

(** The texts of the text parts of a structured content, in order. *)
Definition text_parts (items : list ContentItem) : list string :=
  omap (fun item => match item with TextItem t => Some t | ImageUrlItem _ _ => None end)
       items.

(** The content of a message is a plain text. *)
Definition text_only (m : Message) : bool :=
  match content m with Text _ => true | Parts _ => false end.

(** The role of a message is one of the three the agent writes. *)
Definition known_role (m : Message) : bool :=
  String.eqb (role m) "system" || String.eqb (role m) "user"
  || String.eqb (role m) "assistant".

(** What every message of a memory looks like. *)
Definition well_shaped (m : Message) : Prop :=
  text_only m = true /\ known_role m = true.

(** The message that marks an interruption in the memory of [self]. *)
Definition interrupt_marker (self : BasicMemoryAgent) : Message :=
  msg (if String.eqb (interrupt_method self) "system" then "system" else "user")
      "[Interrupted by user]".

(** No line feed occurs in [s]. *)
Definition single_line (s : string) : bool :=
  PyStr.forallb (fun c => negb (Ascii.eqb c "010"%char)) s.

(** ** The email sender ([email_sender.py]) *)

Module Email.

(** The attributes of [EmailSender]. *)
Record EmailSender : Type := mkEmailSender {
  host : string;
  port : Z;
  use_ssl : bool;
  username : option string;
  password : option string;
}.

(** The exceptions that [send_email] tells apart: the two classes of
    [smtplib] it names, and any other [Exception] with its [str(e)]. *)
Inductive SmtpException : Type :=
| SMTPAuthenticationError
| SMTPConnectError
| OtherException (e : string).

(** The calls into [smtplib]: [smtplib.SMTP_SSL(host, port)] or
    [smtplib.SMTP(host, port)], and the methods of the server object. *)
Inductive SmtpCall : Type :=
| Connect (ssl : bool) (host : string) (port : Z)
| StartTls
| Login (user password : string)
| Sendmail (from_addr to_addr data : string)
| Quit.

(** The libraries behind the sender.  [as_string] is [msg.as_string()] for
    the [MIMEText] message made of a body and the headers [Subject],
    [From] and [To]; [perform] is a call into [smtplib].  Each returns or
    raises; [perform] may change the state of the network. *)
Class Library : Type := {
  Net : Type;
  as_string : string -> string -> option string -> string -> SmtpException + string;
  perform : SmtpCall -> Net -> option SmtpException * Net;
}.

(** What an observer sees of [send_email]: the calls into [smtplib], each
    with the exception it raised, if any, and the lines printed. *)
Inductive Event : Type :=
| Call (c : SmtpCall) (raised : option SmtpException)
| Print (line : string).

(** The calls of a log, in order. *)
Definition calls (log : list Event) : list SmtpCall :=
  omap (fun ev => match ev with Call c _ => Some c | Print _ => None end) log.

Section Sender.
Context `{Lib : Library}.

(** A step of the [try] block: it returns or raises, and leaves a network
    and a log behind in both cases. *)
Definition Step (A : Type) : Type :=
  Net * list Event -> (SmtpException + A) * (Net * list Event).

Definition ret {A} (a : A) : Step A := fun s => (inr a, s).

Definition bind {A B} (c : Step A) (k : A -> Step B) : Step B :=
  fun s =>
    match c s with
    | (inr a, s') => k a s'
    | (inl e, s') => (inl e, s')
    end.

(** A call into [smtplib]. *)
Definition call (c : SmtpCall) : Step unit :=
  fun '(net, log) =>
    let '(raised, net) := perform c net in
    (match raised with Some e => inl e | None => inr tt end,
     (net, log ++ [Call c raised])).

(** An expression that may raise. *)
Definition eval {A} (v : SmtpException + A) : Step A := fun s => (v, s).

Definition print (line : string) : Step unit :=
  fun '(net, log) => (inr tt, (net, log ++ [Print line])).

Definition when (b : bool) (c : Step unit) : Step unit :=
  if b then c else ret tt.

(** [self.username or "noreply@example.com"] *)
Definition envelope_sender (self : EmailSender) : string :=
  match username self with
  | Some u => if PyStr.truthy u then u else "noreply@example.com"
  | None => "noreply@example.com"
  end.

(** The body of the [try] block of [send_email]. *)
Definition try_block (self : EmailSender) (recipient_email subject body : string)
    : Step unit :=
  bind (call (Connect (use_ssl self) (host self) (port self))) (fun _ =>
  bind (when (negb (use_ssl self) && (port self =? 587)%Z) (call StartTls)) (fun _ =>
  bind (when (truthy_opt (username self) && truthy_opt (password self))
          (call (Login (default EmptyString (username self))
                       (default EmptyString (password self))))) (fun _ =>
  bind (eval (as_string body subject (username self) recipient_email)) (fun data =>
  bind (call (Sendmail (envelope_sender self) recipient_email data)) (fun _ =>
  bind (call Quit) (fun _ =>
  print ("Email sent successfully to " +:+ recipient_email))))))).

(** [send_email]: the value returned, the network left and the log. *)
Definition send_email (self : EmailSender) (recipient_email subject body : string)
    (net : Net) : bool * Net * list Event :=
  if negb (PyStr.truthy (host self)) || (port self =? 0)%Z then
    (false, net, [Print "SMTP host or port not configured. Cannot send email."])
  else
    match try_block self recipient_email subject body (net, []) with
    | (inr _, (net, log)) => (true, net, log)
    | (inl SMTPAuthenticationError, (net, log)) =>
        (false, net,
         log ++ [Print "SMTP Authentication Error. Please check username/password."])
    | (inl SMTPConnectError, (net, log)) =>
        (false, net,
         log ++ [Print "SMTP Connection Error. Please check host/port or network."])
    | (inl (OtherException e), (net, log)) =>
        (false, net, log ++ [Print ("Failed to send email: " +:+ e)])
    end.

End Sender.

(** The calls that a sender makes before it builds the message: the
    connection, then [starttls] without SSL on port 587, then [login] when
    both a user name and a password are set. *)
Definition opening (self : EmailSender) : list SmtpCall :=
  [Connect (use_ssl self) (host self) (port self)]
  ++ (if negb (use_ssl self) && (port self =? 587)%Z then [StartTls] else [])
  ++ (if truthy_opt (username self) && truthy_opt (password self)
      then [Login (default EmptyString (username self))
                  (default EmptyString (password self))]
      else []).

(** The calls of a delivery that goes through with the message [data]. *)
Definition delivery (self : EmailSender) (recipient_email data : string)
    : list SmtpCall :=
  opening self ++ [Sendmail (envelope_sender self) recipient_email data; Quit].

(** A library in which [fails] tells which calls raise; the network
    counts the calls. *)
Definition scripted (fails : SmtpCall -> option SmtpException) : Library := {|
  Net := nat;
  as_string := fun body subject from to => inr (subject +:+ PyStr.LF +:+ body);
  perform := fun c n => (fails c, S n);
|}.

End Email.


(** * Properties *)

(** ** The model on small inputs *)

Section Examples.

Example directive_plain :
  Directive.search_query "I need to find that out. [SEARCH: latest AI news]"
  = Some "latest AI news".
Proof. reflexivity. Qed.

Example directive_first_match_only :
  Directive.search_query "[SEARCH:   one  ] and then [SEARCH: two]" = Some "one".
Proof. reflexivity. Qed.

Example directive_stops_at_first_bracket :
  Directive.search_query "[SEARCH: [nested] query]" = Some "[nested".
Proof. reflexivity. Qed.

Example directive_is_case_sensitive :
  Directive.search_query "[search: lower case]" = None.
Proof. reflexivity. Qed.

Example directive_unterminated :
  Directive.search_query "[SEARCH: no closing bracket" = None.
Proof. reflexivity. Qed.

Example directive_not_over_a_line_feed :
  Directive.search_query ("[SEARCH: a" +:+ PyStr.LF +:+ "b] [SEARCH: c]") = Some "c".
Proof. reflexivity. Qed.

Example directive_spaces_may_span_lines :
  Directive.search_query ("[SEARCH: " +:+ PyStr.LF +:+ " b ]") = Some "b".
Proof. reflexivity. Qed.

Example search_web_missing_fields :
  search_web_of
    (Returned [ {[ "body" := "Snippet 1..."; "href" := "http://example.com/1" ]};
                {[ "title" := "Test Title 2"; "href" := "http://example.com/2" ]} ])
  = Returned
      ("Result 1:" +:+ PyStr.LF +:+
       "Title: N/A" +:+ PyStr.LF +:+
       "Snippet: Snippet 1..." +:+ PyStr.LF +:+
       "URL: http://example.com/1" +:+ PyStr.LF +:+
       PyStr.LF +:+
       "Result 2:" +:+ PyStr.LF +:+
       "Title: Test Title 2" +:+ PyStr.LF +:+
       "Snippet: N/A" +:+ PyStr.LF +:+
       "URL: http://example.com/2" +:+ PyStr.LF).
Proof. reflexivity. Qed.

Example search_web_provider_error :
  search_web_of (Raised "DDGS API error")
  = Returned "An error occurred during the web search: DDGS API error".
Proof. reflexivity. Qed.

Example text_prompt_with_images :
  _to_text_prompt
    (mkBatchInput [mkTextData INPUT "hi"; mkTextData CLIPBOARD "clip"]
                  [mkImageData CAMERA "d1"; mkImageData UPLOAD "d2"])
  = "hi" +:+ PyStr.LF +:+
    "[Clipboard content: clip]" +:+ PyStr.LF +:+
    PyStr.LF +:+ "Images in this message:" +:+ PyStr.LF +:+
    "- Image 1 (captured from camera)" +:+ PyStr.LF +:+
    "- Image 2 (uploaded)".
Proof. reflexivity. Qed.

Example interrupt_rewrites_last_assistant :
  _memory (handle_interrupt "Once upon"
             (mkAgent [msg "user" "Tell a story"; msg "assistant" "Once upon a time"]
                      "S" "user" false false))
  = [msg "user" "Tell a story"; msg "assistant" "Once upon...";
     msg "user" "[Interrupted by user]"].
Proof. reflexivity. Qed.

Example interrupt_after_user_message :
  _memory (handle_interrupt EmptyString
             (mkAgent [msg "user" "Tell a story"] "S" "system" false false))
  = [msg "user" "Tell a story"; msg "system" "[Interrupted by user]"].
Proof. reflexivity. Qed.

(** After [reset_interrupt] a further interruption is recorded again. *)
Example interrupt_after_reset :
  _memory (handle_interrupt "b"
             (reset_interrupt
                (handle_interrupt "a" (mkAgent [] "S" "user" false false))))
  = [msg "assistant" "a..."; msg "user" "[Interrupted by user]";
     msg "assistant" "b..."; msg "user" "[Interrupted by user]"].
Proof. reflexivity. Qed.

End Examples.

(** ** Strings *)

Module PyStrFacts.
Import PyStr.

Lemma app_cons (c : ascii) (s1 s2 : string) :
  String c s1 +:+ s2 = String c (s1 +:+ s2).
Proof. reflexivity. Qed.

Lemma app_nil_l (s : string) : EmptyString +:+ s = s.
Proof. reflexivity. Qed.

Lemma app_nil_r (s : string) : s +:+ EmptyString = s.
Proof. induction s as [|c s IH]; [reflexivity|]. by rewrite app_cons, IH. Qed.

Lemma app_assoc (s1 s2 s3 : string) : (s1 +:+ s2) +:+ s3 = s1 +:+ s2 +:+ s3.
Proof.
  induction s1 as [|c s1 IH]; [reflexivity|]. by rewrite !app_cons, IH.
Qed.

Lemma accumulate_chars (acc s : string) : accumulate acc (chars s) = acc +:+ s.
Proof.
  revert acc. induction s as [|c s IH]; intros acc; cbn.
  - by rewrite app_nil_r.
  - unfold accumulate in IH. rewrite IH, app_assoc. reflexivity.
Qed.

(** Character by character, nothing of a string is lost. *)
Lemma chars_whole (s : string) : accumulate EmptyString (chars s) = s.
Proof. apply accumulate_chars. Qed.

Lemma drop_prefix_Some (p s rest : string) :
  drop_prefix p s = Some rest -> s = p +:+ rest.
Proof.
  revert s. induction p as [|a p IH]; intros s H; cbn in H.
  - by inversion H.
  - destruct s as [|b s]; [done|].
    destruct (Ascii.eqb_spec a b) as [->|]; [|done].
    rewrite app_cons. f_equal. by apply IH.
Qed.

Lemma lstrip_spaces (ws s : string) :
  forallb is_space ws = true -> lstrip (ws +:+ s) = lstrip s.
Proof.
  induction ws as [|c ws IH]; [done|]. rewrite app_cons. cbn.
  intros [Hc Hws]%andb_true_iff. rewrite Hc. auto.
Qed.

Lemma rstrip_spaces (ws : string) :
  forallb is_space ws = true -> rstrip ws = EmptyString.
Proof.
  induction ws as [|c ws IH]; [done|]. cbn.
  intros [Hc Hws]%andb_true_iff. by rewrite IH, Hc.
Qed.

Lemma rstrip_app (s1 s2 : string) :
  rstrip (s1 +:+ s2) =
    match rstrip s2 with
    | EmptyString => rstrip s1
    | r => s1 +:+ r
    end.
Proof.
  induction s1 as [|c s1 IH].
  - rewrite app_nil_l. by destruct (rstrip s2).
  - rewrite app_cons. cbn. rewrite IH. destruct (rstrip s2); [reflexivity|].
    by destruct s1.
Qed.

(** White space in front of a text does not change what [strip] keeps. *)
Lemma strip_spaces_app (ws s : string) :
  forallb is_space ws = true -> strip (ws +:+ s) = strip s.
Proof.
  intros Hws. unfold strip. rewrite rstrip_app.
  destruct (rstrip s) eqn:E.
  - by rewrite rstrip_spaces.
  - by rewrite lstrip_spaces.
Qed.

Lemma forallb_app (f : ascii -> bool) (s1 s2 : string) :
  forallb f (s1 +:+ s2) = forallb f s1 && forallb f s2.
Proof.
  induction s1 as [|c s1 IH]; [done|]. rewrite app_cons. cbn.
  rewrite IH. by destruct (f c).
Qed.

Lemma forallb_impl (f g : ascii -> bool) (s : string) :
  (forall c, f c = true -> g c = true) ->
  forallb f s = true -> forallb g s = true.
Proof.
  intros Hfg. induction s as [|c s IH]; [done|]. cbn.
  intros [Hc Hs]%andb_true_iff. by rewrite (Hfg _ Hc), IH.
Qed.

End PyStrFacts.

(** ** The conversation memory *)

Section Memory.

Lemma set_system_keeps_memory (system : string) (self : BasicMemoryAgent) :
  _memory (set_system system self) = _memory self.
Proof. reflexivity. Qed.

Lemma init_memory_empty (system method : string) (enabled : bool) :
  _memory (init system method enabled) = [].
Proof. reflexivity. Qed.

Lemma handle_interrupt_sets_flag (heard : string) (self : BasicMemoryAgent) :
  _interrupt_handled (handle_interrupt heard self) = true.
Proof.
  unfold handle_interrupt.
  destruct (_interrupt_handled self) eqn:Hflag; [exact Hflag|].
  cbn. destruct (last (_memory self)) as [l|];
    [destruct (String.eqb (role l) "assistant")|];
    try destruct (PyStr.truthy heard); reflexivity.
Qed.

Lemma handle_interrupt_handled (heard : string) (self : BasicMemoryAgent) :
  _interrupt_handled self = true -> handle_interrupt heard self = self.
Proof. intros Hflag. unfold handle_interrupt. by rewrite Hflag. Qed.

(** The loop of [set_memory_from_history] appends the converted entries
    in order and touches nothing but the memory. *)
Lemma load_loop (messages : list HistoryMessage) (self : BasicMemoryAgent) :
  foldl (fun self m =>
           with_memory
             (_memory self ++
                [msg (if String.eqb (h_role m) "human" then "user" else "assistant")
                     (h_content m)])
             self)
        self messages
  = with_memory (_memory self ++ (history_entry <$> messages)) self.
Proof.
  revert self. induction messages as [|h messages IH]; intros self.
  - cbn. rewrite app_nil_r. by destruct self.
  - cbn [foldl]. rewrite IH. cbn. unfold with_memory; cbn.
    by rewrite <- app_assoc.
Qed.

Lemma load_history_log (messages : list HistoryMessage) (self : BasicMemoryAgent) :
  load_history messages self
  = with_memory (msg "system" (_system self) :: (history_entry <$> messages)) self.
Proof. unfold load_history. by rewrite load_loop. Qed.

End Memory.

(** C8.  [handle_interrupt] is idempotent: a second call that follows a
    first one with no [reset_interrupt] in between leaves the agent, and
    so its memory, exactly as the first call left it, whatever the two
    heard texts are. *)
Theorem handle_interrupt_idempotent (self : BasicMemoryAgent) (heard1 heard2 : string) :
  handle_interrupt heard2 (handle_interrupt heard1 self) = handle_interrupt heard1 self
  /\ _memory (handle_interrupt heard2 (handle_interrupt heard1 self))
     = _memory (handle_interrupt heard1 self).
Proof.
  assert (handle_interrupt heard2 (handle_interrupt heard1 self)
          = handle_interrupt heard1 self) as Hsame.
  { apply handle_interrupt_handled, handle_interrupt_sets_flag. }
  split; [exact Hsame | by rewrite Hsame].
Qed.

(** C9.  [set_memory_from_history] replaces the memory, whatever it held,
    by the system message followed by one message per entry of the history
    in the original order; the role ["human"] becomes ["user"], any other
    role becomes ["assistant"], and the content is carried over. *)
Theorem set_memory_from_history_replaces `{Env : Environment}
    (conf_uid history_uid : string) (w : World) (self : BasicMemoryAgent) :
  let history := get_history conf_uid history_uid w in
  let loaded := set_memory_from_history conf_uid history_uid w self in
  _memory loaded = msg "system" (_system self) :: (history_entry <$> history)
  /\ length (_memory loaded) = S (length history)
  /\ (forall i h, history !! i = Some h ->
        exists m, _memory loaded !! S i = Some m
          /\ role m = (if String.eqb (h_role h) "human" then "user" else "assistant")
          /\ content m = Text (h_content h)).
Proof.
  intros history loaded.
  assert (_memory loaded = msg "system" (_system self) :: (history_entry <$> history))
    as Hlog.
  { unfold loaded, set_memory_from_history. by rewrite load_history_log. }
  split; [exact Hlog|]. split.
  - rewrite Hlog. cbn. by rewrite length_fmap.
  - intros i h Hi. exists (history_entry h). rewrite Hlog.
    change ((history_entry <$> history) !! i = Some (history_entry h)
            /\ role (history_entry h)
               = (if String.eqb (h_role h) "human" then "user" else "assistant")
            /\ content (history_entry h) = Text (h_content h)).
    rewrite list_lookup_fmap, Hi. done.
Qed.

Lemma set_memory_from_history_replaces_witness :
  _memory (@set_memory_from_history
             (Scripted.env [] (Returned []) Scenario.some_history)
             "conf" "history" 0%nat Scenario.searching_agent)
  = [msg "system" (_system Scenario.searching_agent);
     msg "user" "Hi"; msg "assistant" "Hello!"; msg "assistant" "note"].
Proof.
  destruct (@set_memory_from_history_replaces
              (Scripted.env [] (Returned []) Scenario.some_history)
              "conf" "history" 0%nat Scenario.searching_agent) as [Hlog _].
  exact Hlog.
Defined.

(** ** The search tool *)

Section SearchTool.

(** The loop over [enumerate(search_results)] numbers the blocks from
    the running index and appends them in order. *)
Lemma render_loop (results : list SearchResult) (k : nat) (acc : list string) :
  foldl (fun '(i, results_output) result =>
           (S i, results_output ++ [result_block i result]))
        (k, acc) results
  = ((k + length results)%nat,
     acc ++ imap (fun i r => result_block (k + i) r) results).
Proof.
  revert k acc. induction results as [|r results IH]; intros k acc.
  - cbn. by rewrite Nat.add_0_r, app_nil_r.
  - cbn [foldl]. rewrite IH. cbn [length imap]. f_equal; [lia|].
    rewrite <- app_assoc. cbn. rewrite Nat.add_0_r. do 2 f_equal.
    apply imap_ext. intros i x _. cbn. f_equal. lia.
Qed.

Lemma render_results_listing (r : SearchResult) (results : list SearchResult) :
  render_results (r :: results) = listing (r :: results).
Proof.
  unfold render_results. rewrite render_loop. cbn [snd app imap].
  unfold listing. cbn [imap]. f_equal.
  unfold result_block, get_or_na. cbn [Nat.add].
  f_equal.
  apply imap_ext. intros i x _. cbn. by rewrite Nat.add_1_r.
Qed.

(** Whatever the provider does, [search_web] returns a string. *)
Lemma search_web_of_returns (provider : Outcome (list SearchResult)) :
  exists text, search_web_of provider = Returned text.
Proof. destruct provider; cbn; eauto. Qed.

Lemma search_web_returns `{Env : Environment} (query : string) (n : nat) (w : World) :
  exists text w', search_web query n w = (Returned text, w').
Proof.
  unfold search_web. destruct (ddgs_text query n w) as [provider w'].
  destruct (search_web_of_returns provider) as [text ->]. eauto.
Qed.

End SearchTool.

(** C7.  [search_web] never raises: for every query it returns a string.
    The string is the literal "No results found for your query." when the
    provider returns no result, a text that describes the error when the
    provider raises, and otherwise the listing of the results in the
    order of the provider, each with its title, snippet and URL, where a
    missing field reads "N/A". *)
Theorem search_web_always_returns_text `{Env : Environment}
    (query : string) (num_results : nat) (w : World) :
  exists text,
    fst (search_web query num_results w) = Returned text
    /\ match fst (ddgs_text query num_results w) with
       | Raised e => text = "An error occurred during the web search: " +:+ e
       | Returned [] => text = "No results found for your query."
       | Returned results => text = listing results
       end.
Proof.
  unfold search_web.
  destruct (ddgs_text query num_results w) as [[results|e] w']; cbn [fst].
  - exists (render_results results). split; [reflexivity|].
    destruct results as [|r results]; [reflexivity|].
    apply render_results_listing.
  - eexists. split; reflexivity.
Qed.

(** ** The search directive *)

Section DirectiveFacts.
Import PyStr PyStrFacts Directive.

Lemma lazy_group_sound (s group1 : string) :
  lazy_group s = Some group1 ->
  exists after, s = group1 +:+ "]" +:+ after /\ bracket_free group1 = true.
Proof.
  revert group1. induction s as [|c s IH]; intros group1 H; [done|].
  cbn in H. destruct (Ascii.eqb_spec c "]"%char) as [->|Hc].
  - inversion H; subst. by exists s.
  - destruct (Ascii.eqb c "010"%char); [done|].
    destruct (lazy_group s) as [g|] eqn:Hg; [|done].
    inversion H; subst. destruct (IH g eq_refl) as (after & -> & Hfree).
    exists after. split; [by rewrite app_cons|].
    unfold bracket_free in *. cbn. rewrite Hfree.
    by apply Ascii.eqb_neq in Hc as ->.
Qed.

Lemma spaces_then_group_sound (s group1 : string) :
  spaces_then_group s = Some group1 ->
  exists spaces after,
    s = spaces +:+ group1 +:+ "]" +:+ after
    /\ PyStr.forallb is_space spaces = true
    /\ bracket_free group1 = true.
Proof.
  revert group1. induction s as [|c s IH]; intros group1 H.
  - done.
  - cbn [spaces_then_group] in H.
    assert (lazy_group (String c s) = Some group1 ->
            exists spaces after,
              String c s = spaces +:+ group1 +:+ "]" +:+ after
              /\ PyStr.forallb is_space spaces = true
              /\ bracket_free group1 = true) as Hlazy.
    { intros (after & -> & Hfree)%lazy_group_sound.
      by exists EmptyString, after. }
    destruct (is_space c) eqn:Hc; [|by apply Hlazy].
    destruct (spaces_then_group s) as [g|] eqn:Hg; [|by apply Hlazy].
    inversion H; subst.
    destruct (IH group1 eq_refl) as (spaces & after & -> & Hsp & Hfree).
    exists (String c spaces), after. split; [by rewrite app_cons|].
    split; [|done]. cbn. by rewrite Hc, Hsp.
Qed.

Lemma match_here_sound (s group1 : string) :
  match_here s = Some group1 ->
  exists spaces after,
    s = TAG +:+ spaces +:+ group1 +:+ "]" +:+ after
    /\ PyStr.forallb is_space spaces = true
    /\ bracket_free group1 = true.
Proof.
  unfold match_here. destruct (drop_prefix TAG s) as [rest|] eqn:Hrest; [|done].
  cbn. intros (spaces & after & -> & Hsp & Hfree)%spaces_then_group_sound.
  apply drop_prefix_Some in Hrest. eauto.
Qed.

(** [re.search] returns the match at the first position that has one. *)
Lemma re_search_leftmost (s group1 : string) :
  re_search s = Some group1 ->
  exists before rest,
    s = before +:+ rest
    /\ match_here rest = Some group1
    /\ (forall p r, s = p +:+ r ->
          (String.length p < String.length before)%nat ->
          match_here r = None).
Proof.
  revert group1. induction s as [|c s IH]; intros group1 H.
  - cbn in H. destruct (match_here EmptyString) eqn:Hm; [|done].
    exists EmptyString, EmptyString. split; [done|]. split; [congruence|].
    intros p r _ Hlt. cbn in Hlt. lia.
  - cbn [re_search] in H. destruct (match_here (String c s)) as [g|] eqn:Hm.
    + exists EmptyString, (String c s). split; [done|]. split; [congruence|].
      intros p r _ Hlt. cbn in Hlt. lia.
    + destruct (IH group1 H) as (before & rest & -> & Hrest & Hfirst).
      exists (String c before), rest. split; [by rewrite app_cons|].
      split; [done|]. intros [|c' p] r Hs Hlt.
      * rewrite app_nil_l in Hs. by subst r.
      * rewrite app_cons in Hs. inversion Hs; subst.
        apply Hfirst with p; [done|]. cbn in Hlt. lia.
Qed.

Lemma space_is_no_bracket (c : ascii) :
  is_space c = true -> negb (Ascii.eqb c "]"%char) = true.
Proof.
  destruct (Ascii.eqb_spec c "]"%char) as [->|]; [|done]. by vm_compute.
Qed.

(** The query of a search: the text between the tag of the first match
    and the first closing bracket after it, stripped. *)
Lemma search_query_between (s group1 : string) :
  re_search s = Some group1 ->
  exists before body after,
    s = before +:+ "[SEARCH:" +:+ body +:+ "]" +:+ after
    /\ bracket_free body = true
    /\ strip group1 = strip body
    /\ (forall p r, s = p +:+ r ->
          (String.length p < String.length before)%nat ->
          match_here r = None).
Proof.
  intros (before & rest & -> & Hrest & Hfirst)%re_search_leftmost.
  apply match_here_sound in Hrest as (spaces & after & -> & Hsp & Hfree).
  exists before, (spaces +:+ group1), after. split; [by rewrite !app_assoc|].
  split; [|split; [|done]].
  - unfold bracket_free in *. rewrite forallb_app, Hfree, andb_true_r.
    eapply forallb_impl; [|exact Hsp]. apply space_is_no_bracket.
  - by rewrite strip_spaces_app.
Qed.

End DirectiveFacts.

(** ** The turn loop *)

Section LoopFacts.
Context `{Env : Environment}.

Lemma machine_eta (m : Machine) : mkMachine (agent m) (world m) (trace m) = m.
Proof. by destruct m. Qed.

Lemma yield_all_run (cs : list string) (m : Machine) :
  yield_all cs m
  = (Ok tt, mkMachine (agent m) (world m) (trace m ++ (EvYield <$> cs))).
Proof.
  revert m. induction cs as [|c cs IH]; intros m.
  - cbn. by rewrite app_nil_r, machine_eta.
  - cbn [yield_all]. unfold bind, emit. rewrite IH. cbn.
    by rewrite <- app_assoc.
Qed.

(** The text the memory keeps of the user message of a turn. *)
Lemma user_message_text (input_data : BatchInput) :
  text_content (content (user_message input_data)) = _to_text_prompt input_data.
Proof.
  unfold user_message. destruct (images input_data) as [|i l] eqn:Himg; [done|].
  cbn [content text_content].
  assert (forall (imgs : list ImageData) (items : list ContentItem) (acc : string),
            foldl (fun acc item =>
                     match item with
                     | TextItem t => acc +:+ t
                     | ImageUrlItem _ _ => acc
                     end) acc
              (foldl (fun content img =>
                        content ++ [ImageUrlItem (img_data img) "auto"]) items imgs)
            = foldl (fun acc item =>
                       match item with
                       | TextItem t => acc +:+ t
                       | ImageUrlItem _ _ => acc
                       end) acc items) as Himages.
  { induction imgs as [|img imgs IH]; intros items acc; [done|].
    cbn [foldl]. rewrite IH. by rewrite foldl_snoc. }
  by rewrite Himages.
Qed.

Lemma to_messages_memory (input_data : BatchInput) (self : BasicMemoryAgent) :
  _memory (snd (_to_messages input_data self))
  = _memory self ++ [msg "user" (_to_text_prompt input_data)].
Proof. cbn. by rewrite user_message_text. Qed.

(** The loop is a sequence of rounds; it leaves the agent as it found it
    and, given the fuel of its bound, it never runs out of fuel. *)
Lemma search_loop_rounds (fuel current : nat) (messages : list Message)
    (cr : string) (m : Machine) :
  (MAX_SEARCH_ITERATIONS - current <= fuel)%nat ->
  exists t res w',
    search_loop fuel current messages cr m
    = (res, mkMachine (agent m) w' (trace m ++ t))
    /\ rounds (_system (agent m)) (_enable_web_search (agent m))
         (MAX_SEARCH_ITERATIONS - current) messages cr (world m) t res w'.
Proof.
  revert current messages cr m.
  induction fuel as [|fuel IH]; intros current messages cr m Hfuel.
  - assert ((current <? MAX_SEARCH_ITERATIONS)%nat = false) as Hcond
      by (apply Nat.ltb_ge; lia).
    cbn [search_loop]. rewrite Hcond.
    exists [], (Ok cr), (world m).
    replace (MAX_SEARCH_ITERATIONS - current)%nat with 0%nat by lia.
    split; [|constructor].
    unfold ret. by rewrite app_nil_r, machine_eta.
  - cbn [search_loop].
    destruct (current <? MAX_SEARCH_ITERATIONS)%nat eqn:Hcond.
    2:{ apply Nat.ltb_ge in Hcond.
        exists [], (Ok cr), (world m).
        replace (MAX_SEARCH_ITERATIONS - current)%nat with 0%nat by lia.
        split; [|constructor].
        unfold ret. by rewrite app_nil_r, machine_eta. }
    apply Nat.ltb_lt in Hcond.
    destruct (MAX_SEARCH_ITERATIONS - current)%nat as [|n] eqn:Hn; [lia|].
    unfold bind at 1. unfold drain_model, bind, get_agent, ask, emit.
    destruct (chat_completion messages (_system (agent m)) (world m))
      as [out w1] eqn:Hcall.
    cbn [agent world trace].
    destruct (failure out) as [e|] eqn:Hfail.
    + exists [EvModel messages (_system (agent m)) out], (Error e), w1.
      split; [reflexivity|]. by eapply rounds_fail.
    + unfold ret. cbn [agent world trace].
      destruct (_enable_web_search (agent m)) eqn:Hen;
        [destruct (Directive.re_search (raw_of out)) as [group1|] eqn:Hre|].
      * unfold do_search, bind, ask, emit.
        cbn [agent world trace].
        destruct (search_web_returns (PyStr.strip group1) 3 w1)
          as (r & w2 & Hsearch).
        rewrite Hsearch. unfold ret. cbn [agent world trace].
        destruct (IH (current + 1)%nat
                    (messages ++
                       [msg "assistant" (raw_of out);
                        msg "user"
                          (search_context_message (PyStr.strip group1) r)])
                    EmptyString
                    (mkMachine (agent m) w2
                       ((trace m ++ [EvModel messages (_system (agent m)) out])
                          ++ [EvSearch (PyStr.strip group1) 3 (Returned r)])))
          as (t & res & w3 & Hloop & Hrounds); [lia|].
        rewrite Hloop. cbn [agent world trace] in *.
        exists (EvModel messages (_system (agent m)) out
                  :: EvSearch (PyStr.strip group1) 3 (Returned r) :: t), res, w3.
        split; [by rewrite <- !app_assoc|].
        eapply rounds_search; eauto.
        replace n with (MAX_SEARCH_ITERATIONS - (current + 1))%nat by lia.
        by rewrite Hen in Hrounds.
      * rewrite yield_all_run. cbn [agent world trace].
        exists (EvModel messages (_system (agent m)) out
                  :: (EvYield <$> PyStr.chars (raw_of out))), (Ok (raw_of out)), w1.
        split; [by rewrite <- app_assoc|].
        eapply rounds_final; eauto.
      * rewrite yield_all_run. cbn [agent world trace].
        exists (EvModel messages (_system (agent m)) out
                  :: (EvYield <$> PyStr.chars (raw_of out))), (Ok (raw_of out)), w1.
        split; [by rewrite <- app_assoc|].
        eapply rounds_final; eauto.
Qed.

(** A turn is the rounds of its loop, between the recording of the user
    message and, when the loop ends well, that of the assistant
    message. *)
Lemma chat_with_memory_rounds (input_data : BatchInput) (m : Machine) :
  exists t res w',
    chat_with_memory input_data m
    = (turn_result res,
       mkMachine (turn_agent input_data (agent m) res) w' (trace m ++ t))
    /\ rounds (_system (agent m)) (_enable_web_search (agent m))
         MAX_SEARCH_ITERATIONS
         (_memory (agent m) ++ [user_message input_data]) EmptyString
         (world m) t res w'.
Proof.
  unfold chat_with_memory, bind at 1, get_agent.
  cbn [_to_messages]. unfold bind at 1, update_agent.
  cbn [agent world trace]. unfold bind at 1.
  destruct (search_loop_rounds MAX_SEARCH_ITERATIONS 0
              (_memory (agent m) ++ [user_message input_data]) EmptyString
              (mkMachine
                 (_add_message (content (user_message input_data)) "user" None
                    (agent m))
                 (world m) (trace m)))
    as (t & res & w' & Hloop & Hrounds); [lia|].
  rewrite Hloop. cbn [agent world trace] in *.
  exists t, res, w'. split; [by destruct res | exact Hrounds].
Qed.

End LoopFacts.

(** ** What the rounds of a turn imply *)

Section RoundsFacts.
Context `{Env : Environment}.

Lemma searches_nil : searches [] = [].
Proof. reflexivity. Qed.

Lemma model_calls_nil : model_calls [] = [].
Proof. reflexivity. Qed.

Lemma searches_cons (e : Event) (t : list Event) :
  searches (e :: t)
  = match e with
    | EvSearch q n _ => (q, n) :: searches t
    | _ => searches t
    end.
Proof. by destruct e. Qed.

Lemma model_calls_cons (e : Event) (t : list Event) :
  model_calls (e :: t)
  = match e with
    | EvModel messages system _ => (messages, system) :: model_calls t
    | _ => model_calls t
    end.
Proof. by destruct e. Qed.

Lemma yielded_cons (e : Event) (t : list Event) :
  yielded (e :: t)
  = match e with
    | EvYield token => token :: yielded t
    | _ => yielded t
    end.
Proof. by destruct e. Qed.

Lemma searches_yields (cs : list string) : searches (EvYield <$> cs) = [].
Proof. induction cs; [done|]. by rewrite fmap_cons, searches_cons. Qed.

Lemma model_calls_yields (cs : list string) : model_calls (EvYield <$> cs) = [].
Proof. induction cs; [done|]. by rewrite fmap_cons, model_calls_cons. Qed.

Lemma last_output_cons (e : Event) (t : list Event) :
  last_output (e :: t)
  = match last_output t with
    | Some out => Some out
    | None => match e with EvModel _ _ out => Some out | _ => None end
    end.
Proof.
  unfold last_output.
  set (f := fun e => match e with EvModel _ _ out => Some out | _ => None end).
  assert (omap f (e :: t)
          = match f e with Some y => y :: omap f t | None => omap f t end) as ->
    by reflexivity.
  generalize (omap f t). intros l. subst f.
  destruct e as [messages system out| |]; cbn beta iota.
  - destruct l as [|o l]; [done|]. rewrite last_cons_cons.
    destruct (last (o :: l)) eqn:E; [done|]. by apply last_None in E.
  - by destruct (last l).
  - by destruct (last l).
Qed.

Lemma last_output_yields (cs : list string) : last_output (EvYield <$> cs) = None.
Proof.
  induction cs as [|c cs IH]; [done|]. by rewrite fmap_cons, last_output_cons, IH.
Qed.

Lemma last_output_nil : last_output [] = None.
Proof. reflexivity. Qed.

Lemma yielded_yields (cs : list string) : yielded (EvYield <$> cs) = cs.
Proof.
  induction cs as [|c cs IH]; [done|]. rewrite fmap_cons, yielded_cons.
  by f_equal.
Qed.

Lemma lookup_yields (cs : list string) (i : nat) (e : Event) :
  (EvYield <$> cs) !! i = Some e -> is_yield e = true.
Proof.
  rewrite list_lookup_fmap. destruct (cs !! i); [|done].
  cbn. by intros [= <-].
Qed.

Variables (sys : string) (enabled : bool).

(** No more searches than iterations. *)
Lemma rounds_searches_le n messages cr w t res w' :
  rounds sys enabled n messages cr w t res w' ->
  (length (searches t) <= n)%nat.
Proof.
  induction 1;
    rewrite ?searches_cons, ?model_calls_cons, ?searches_yields,
      ?model_calls_yields, ?searches_nil, ?model_calls_nil;
    cbn [length]; lia.
Qed.

(** No more searches than model calls. *)
Lemma rounds_searches_le_models n messages cr w t res w' :
  rounds sys enabled n messages cr w t res w' ->
  (length (searches t) <= length (model_calls t))%nat.
Proof.
  induction 1;
    rewrite ?searches_cons, ?model_calls_cons, ?searches_yields,
      ?model_calls_yields, ?searches_nil, ?model_calls_nil;
    cbn [length]; lia.
Qed.

(** A search comes right after the model call whose text asked for it,
    with the stripped group of the first match and the hint 3. *)
Lemma rounds_search_follows_model n messages cr w t res w' :
  rounds sys enabled n messages cr w t res w' ->
  forall i query num_results result,
    t !! i = Some (EvSearch query num_results result) ->
    num_results = 3%nat
    /\ exists j messages' out group1,
         i = S j
         /\ t !! j = Some (EvModel messages' sys out)
         /\ failure out = None
         /\ Directive.re_search (raw_of out) = Some group1
         /\ query = PyStr.strip group1.
Proof.
  induction 1 as [ | | n messages cr w out w1 Hcall Hfail Hnone
                   | n messages cr w out w1 group1 r w2 t res w3
                       Hcall Hfail Hen Hre Hsearch Hrest IH ];
    intros i query num_results result Hi.
  - done.
  - by destruct i as [|[|i]].
  - destruct i as [|i]; [done|]. cbn in Hi.
    by apply lookup_yields in Hi.
  - destruct i as [|[|i]]; [done| |].
    + cbn in Hi. inversion Hi; subst. split; [done|].
      exists 0%nat, messages, out, group1. done.
    + cbn in Hi. destruct (IH _ _ _ _ Hi)
        as (-> & j & messages' & out' & g & -> & Hj & Hf & Hg & ->).
      split; [done|]. exists (S (S j)), messages', out', g. done.
Qed.

(** A model call that fails is the last event of the turn; its
    exception is the result, and nothing was yielded. *)
Lemma rounds_failure_last n messages cr w t res w' :
  rounds sys enabled n messages cr w t res w' ->
  forall i messages' sys' out e,
    t !! i = Some (EvModel messages' sys' out) ->
    failure out = Some e ->
    res = Error e /\ S i = length t /\ yielded t = [].
Proof.
  induction 1 as [ | n messages cr w out w1 e0 Hcall Hfail
                   | n messages cr w out w1 Hcall Hfail Hnone
                   | n messages cr w out w1 group1 r w2 t res w3
                       Hcall Hfail Hen Hre Hsearch Hrest IH ];
    intros i messages' sys' out' e Hi He.
  - done.
  - destruct i as [|i]; [|by destruct i]. cbn in Hi. inversion Hi; subst.
    rewrite Hfail in He. by inversion He.
  - destruct i as [|i].
    + cbn in Hi. inversion Hi; subst. congruence.
    + cbn in Hi. by apply lookup_yields in Hi.
  - destruct i as [|[|i]].
    + cbn in Hi. inversion Hi; subst. congruence.
    + done.
    + cbn in Hi. destruct (IH _ _ _ _ _ Hi He) as (-> & Hlen & Hy).
      split; [done|]. split; [cbn; lia|]. by rewrite !yielded_cons.
Qed.

(** Every model call gets the system prompt of the agent. *)
Lemma rounds_model_system n messages cr w t res w' :
  rounds sys enabled n messages cr w t res w' ->
  Forall (fun call => snd call = sys) (model_calls t).
Proof.
  induction 1;
    rewrite ?model_calls_cons, ?model_calls_yields, ?model_calls_nil;
    repeat constructor; done.
Qed.

(** The loop ends well or raises. *)
Lemma rounds_result n messages cr w t res w' :
  rounds sys enabled n messages cr w t res w' -> res <> OutOfFuel.
Proof. induction 1; done. Qed.

End RoundsFacts.

Section TurnFacts.
Context `{Env : Environment}.

(** A turn changes nothing of the agent but its memory. *)
Lemma turn_agent_frame (input_data : BatchInput) (self : BasicMemoryAgent)
    (res : Result string) :
  _system (turn_agent input_data self res) = _system self
  /\ interrupt_method (turn_agent input_data self res) = interrupt_method self
  /\ _enable_web_search (turn_agent input_data self res) = _enable_web_search self
  /\ _interrupt_handled (turn_agent input_data self res) = _interrupt_handled self.
Proof. by destruct res. Qed.

Lemma run_turn_rounds (input_data : BatchInput) (self : BasicMemoryAgent) (w : World) :
  exists t res w',
    run_turn input_data self w
    = (turn_result res, mkMachine (turn_agent input_data self res) w' t)
    /\ rounds (_system self) (_enable_web_search self) MAX_SEARCH_ITERATIONS
         (_memory self ++ [user_message input_data]) EmptyString w t res w'.
Proof.
  destruct (chat_with_memory_rounds input_data (mkMachine self w []))
    as (t & res & w' & Hrun & Hrounds).
  exists t, res, w'. split; [exact Hrun | exact Hrounds].
Qed.

(** A turn always comes to an end. *)
Lemma run_turn_terminates (input_data : BatchInput) (self : BasicMemoryAgent) (w : World) :
  fst (run_turn input_data self w) <> OutOfFuel.
Proof.
  destruct (run_turn_rounds input_data self w) as (t & res & w' & -> & Hrounds).
  apply rounds_result in Hrounds. by destruct res.
Qed.

End TurnFacts.

Section RoundsInversion.
Context `{Env : Environment}.
Variables (sys : string) (enabled : bool).

Lemma rounds_0_inv messages cr w t res w' :
  rounds sys enabled 0 messages cr w t res w' ->
  t = [] /\ res = Ok cr /\ w' = w.
Proof. by inversion 1. Qed.

(** The three ways an iteration can go. *)
Lemma rounds_S_inv n messages cr w t res w' :
  rounds sys enabled (S n) messages cr w t res w' ->
  exists out w1,
    chat_completion messages sys w = (out, w1)
    /\ ((exists e,
           failure out = Some e
           /\ t = [EvModel messages sys out] /\ res = Error e /\ w' = w1)
        \/ (failure out = None
            /\ (if enabled then Directive.re_search (raw_of out) else None) = None
            /\ t = EvModel messages sys out :: (EvYield <$> PyStr.chars (raw_of out))
            /\ res = Ok (raw_of out) /\ w' = w1)
        \/ (exists group1 r w2 t',
              failure out = None
              /\ enabled = true
              /\ Directive.re_search (raw_of out) = Some group1
              /\ search_web (PyStr.strip group1) 3 w1 = (Returned r, w2)
              /\ rounds sys enabled n
                   (messages ++
                      [msg "assistant" (raw_of out);
                       msg "user" (search_context_message (PyStr.strip group1) r)])
                   EmptyString w2 t' res w'
              /\ t = EvModel messages sys out ::
                     EvSearch (PyStr.strip group1) 3 (Returned r) :: t')).
Proof.
  inversion 1; subst; eexists _, _; (split; [eassumption|]).
  - left. eauto.
  - right. left. eauto.
  - right. right. eauto 10.
Qed.

End RoundsInversion.

(** C3.  With the search capability disabled a turn issues no search call
    and makes one model call; when that call streams its text to the end,
    the turn yields the text character by character, nothing added and
    nothing removed, and records it as the assistant message, also when
    it contains a search directive. *)
Theorem search_disabled_passes_output_through `{Env : Environment}
    (input_data : BatchInput) (self : BasicMemoryAgent) (w : World) :
  _enable_web_search self = false ->
  let messages := _memory self ++ [user_message input_data] in
  let out := fst (chat_completion messages (_system self) w) in
  let r := run_turn input_data self w in
  searches (trace (snd r)) = []
  /\ model_calls (trace (snd r)) = [(messages, _system self)]
  /\ (failure out = None ->
        fst r = Ok tt
        /\ yielded (trace (snd r)) = PyStr.chars (raw_of out)
        /\ PyStr.accumulate EmptyString (yielded (trace (snd r))) = raw_of out
        /\ _memory (agent (snd r))
           = _memory self ++
               [msg "user" (_to_text_prompt input_data);
                msg "assistant" (raw_of out)]).
Proof.
  intros Hoff messages out r. subst r out.
  destruct (run_turn_rounds input_data self w) as (t & res & w' & -> & Hrounds).
  cbn [fst snd trace agent]. rewrite Hoff in Hrounds.
  apply rounds_S_inv in Hrounds as (out & w1 & Hcall & Hcases).
  fold messages in Hcall. rewrite Hcall. cbn [fst].
  destruct Hcases as [(e & Hfail & -> & -> & ->)
                     |[(Hfail & _ & -> & -> & ->)
                      |(g & r & w2 & t' & _ & Hen & _)]]; [| |done].
  - split; [done|]. split; [done|]. intros Hok. congruence.
  - rewrite searches_cons, model_calls_cons, yielded_cons,
      searches_yields, model_calls_yields, yielded_yields.
    split; [done|]. split; [done|]. intros _.
    split; [done|]. split; [done|]. split; [apply PyStrFacts.chars_whole|].
    unfold turn_agent. cbn [_add_message text_content _memory with_memory].
    rewrite to_messages_memory. by rewrite <- app_assoc.
Qed.

Lemma search_disabled_passes_output_through_witness :
  let r := @run_turn Scenario.ignored_env
             (Scripted.user_says "Tell me about LLMs") Scenario.plain_agent 0%nat in
  searches (trace (snd r)) = []
  /\ PyStr.accumulate EmptyString (yielded (trace (snd r))) = Scenario.ignored_directive
  /\ _memory (agent (snd r))
     = [msg "user" "Tell me about LLMs"; msg "assistant" Scenario.ignored_directive].
Proof.
  destruct (@search_disabled_passes_output_through Scenario.ignored_env
              (Scripted.user_says "Tell me about LLMs") Scenario.plain_agent 0%nat
              eq_refl) as (Hnone & _ & Hfinal).
  destruct (Hfinal eq_refl) as (_ & _ & Hwhole & Hmemory).
  split; [exact Hnone|]. split; [exact Hwhole | exact Hmemory].
Defined.

(** C4.  In every turn the number of search calls is at most the ceiling
    of 2 and at most the number of model calls.  Every search call comes
    directly after the model call of its iteration, so an iteration issues
    at most one; its result-count hint is 3 and its query is the text
    between the tag [[SEARCH:] of the first match in the output of that
    model call and the first closing bracket after the tag, stripped of
    surrounding white space. *)
Theorem search_calls_bounded_and_extracted `{Env : Environment}
    (input_data : BatchInput) (self : BasicMemoryAgent) (w : World) :
  let t := trace (snd (run_turn input_data self w)) in
  (length (searches t) <= MAX_SEARCH_ITERATIONS)%nat
  /\ MAX_SEARCH_ITERATIONS = 2%nat
  /\ (length (searches t) <= length (model_calls t))%nat
  /\ forall i query num_results result,
       t !! i = Some (EvSearch query num_results result) ->
       num_results = 3%nat
       /\ exists j messages system out before body after,
            i = S j
            /\ t !! j = Some (EvModel messages system out)
            /\ raw_of out = before +:+ "[SEARCH:" +:+ body +:+ "]" +:+ after
            /\ bracket_free body = true
            /\ query = PyStr.strip body
            /\ (forall p r,
                  raw_of out = p +:+ r ->
                  (String.length p < String.length before)%nat ->
                  Directive.match_here r = None).
Proof.
  intros t. subst t.
  destruct (run_turn_rounds input_data self w) as (t & res & w' & -> & Hrounds).
  cbn [snd trace].
  split; [by eapply rounds_searches_le|]. split; [done|].
  split; [by eapply rounds_searches_le_models|].
  intros i query num_results result Hi.
  destruct (rounds_search_follows_model _ _ _ _ _ _ _ _ _ Hrounds _ _ _ _ Hi)
    as (-> & j & messages' & out & group1 & -> & Hj & _ & Hre & ->).
  split; [done|].
  destruct (search_query_between _ _ Hre)
    as (before & body & after & Hraw & Hfree & Hstrip & Hfirst).
  exists j, messages', (_system self), out, before, body, after.
  by rewrite Hstrip.
Qed.

Lemma search_calls_bounded_and_extracted_witness :
  let t := trace (snd (@run_turn Scenario.one_round_env
                         (Scripted.user_says "What's the latest news on AI?")
                         Scenario.searching_agent 0%nat)) in
  searches t = [("latest AI news", 3%nat)]
  /\ exists j messages system out before body after,
       1%nat = S j
       /\ t !! j = Some (EvModel messages system out)
       /\ raw_of out = before +:+ "[SEARCH:" +:+ body +:+ "]" +:+ after
       /\ bracket_free body = true
       /\ "latest AI news" = PyStr.strip body
       /\ (forall p r,
             raw_of out = p +:+ r ->
             (String.length p < String.length before)%nat ->
             Directive.match_here r = None).
Proof.
  split; [reflexivity|].
  pose proof (@search_calls_bounded_and_extracted Scenario.one_round_env
                (Scripted.user_says "What's the latest news on AI?")
                Scenario.searching_agent 0%nat) as (_ & _ & _ & Hquery).
  exact (proj2 (Hquery 1%nat "latest AI news" 3%nat
                  (Returned (listing Scenario.news)) eq_refl)).
Defined.

(** C5.  When a turn had a search round and its last model call streamed,
    to the end, a text without directive, the memory gains the user
    message and exactly one assistant entry, the text of that last call.
    The attempt that held the directive and the message with the search
    results are in the message list of the second model call and nowhere
    in the memory. *)
Theorem search_round_leaves_one_assistant_entry `{Env : Environment}
    (input_data : BatchInput) (self : BasicMemoryAgent) (w : World) (out : Stream) :
  let r := run_turn input_data self w in
  searches (trace (snd r)) <> [] ->
  last_output (trace (snd r)) = Some out ->
  failure out = None ->
  Directive.re_search (raw_of out) = None ->
  fst r = Ok tt
  /\ yielded (trace (snd r)) = PyStr.chars (raw_of out)
  /\ (exists gained,
        _memory (agent (snd r)) = _memory self ++ gained
        /\ gained = [msg "user" (_to_text_prompt input_data);
                     msg "assistant" (raw_of out)]
        /\ assistant_entries gained = [msg "assistant" (raw_of out)])
  /\ (exists attempt query results,
        Directive.search_query attempt = Some query
        /\ searches (trace (snd r)) = [(query, 3%nat)]
        /\ model_calls (trace (snd r))
           = [(_memory self ++ [user_message input_data], _system self);
              (_memory self ++
                 [user_message input_data;
                  msg "assistant" attempt;
                  msg "user" (search_context_message query results)],
               _system self)]).
Proof.
  intros r. subst r.
  destruct (run_turn_rounds input_data self w) as (t & res & w' & -> & Hrounds).
  cbn [fst snd trace agent]. intros Hsearched Hlast Hok Hplain.
  unfold MAX_SEARCH_ITERATIONS in Hrounds.
  apply rounds_S_inv in Hrounds as (out1 & w1 & Hcall1 & Hcases).
  destruct Hcases as [(e & Hfail & -> & -> & ->)
                     |[(Hfail & _ & -> & -> & ->)
                      |(g & results & w2 & t' & Hfail1 & Hen & Hre1 & Hsearch
                          & Hrounds & ->)]].
  - by rewrite searches_cons in Hsearched.
  - by rewrite searches_cons, searches_yields in Hsearched.
  - apply rounds_S_inv in Hrounds as (out2 & w3 & Hcall2 & Hcases).
    destruct Hcases as [(e & Hfail & -> & -> & ->)
                       |[(Hfail & _ & -> & -> & ->)
                        |(g2 & r2 & w4 & t'' & Hfail2 & _ & Hre2 & _
                            & Hrounds & ->)]].
    + rewrite !last_output_cons, last_output_nil in Hlast.
      inversion Hlast; subst. congruence.
    + rewrite !last_output_cons, last_output_yields in Hlast.
      inversion Hlast; subst out2.
      rewrite !searches_cons, !model_calls_cons, !yielded_cons,
        searches_yields, model_calls_yields, yielded_yields.
      split; [done|]. split; [done|]. split.
      * eexists. split; [|split; [reflexivity|]].
        -- unfold turn_agent. cbn [_add_message text_content _memory with_memory].
           rewrite to_messages_memory. by rewrite <- app_assoc.
        -- reflexivity.
      * exists (raw_of out1), (PyStr.strip g), results.
        split; [unfold Directive.search_query; by rewrite Hre1|].
        split; [done|]. by rewrite <- app_assoc.
    + apply rounds_0_inv in Hrounds as (-> & -> & ->).
      rewrite !last_output_cons, last_output_nil in Hlast.
      inversion Hlast; subst. congruence.
Qed.

Lemma search_round_leaves_one_assistant_entry_witness :
  let r := @run_turn Scenario.one_round_env
             (Scripted.user_says "What's the latest news on AI?")
             Scenario.searching_agent 0%nat in
  fst r = Ok tt
  /\ _memory (agent (snd r))
     = [msg "user" "What's the latest news on AI?";
        msg "assistant" Scenario.final_answer].
Proof.
  assert (searches (trace (snd (@run_turn Scenario.one_round_env
                                  (Scripted.user_says "What's the latest news on AI?")
                                  Scenario.searching_agent 0%nat))) <> [])
    as Hsearched by (vm_compute; discriminate).
  destruct (@search_round_leaves_one_assistant_entry Scenario.one_round_env
              (Scripted.user_says "What's the latest news on AI?")
              Scenario.searching_agent 0%nat
              (Scripted.reply Scenario.final_answer)
              Hsearched eq_refl eq_refl eq_refl)
    as (Hok & _ & (gained & Hmemory & -> & _) & _).
  split; [exact Hok | exact Hmemory].
Defined.

(** C6.  When a model call of a turn raises, in whichever iteration, the
    turn ends with that exception and the failing call is its last event:
    no call is made after it and nothing is yielded.  The memory then
    holds the user message of the turn, appended at its start, and no
    assistant message of the turn. *)
Theorem model_failure_propagates `{Env : Environment}
    (input_data : BatchInput) (self : BasicMemoryAgent) (w : World)
    (i : nat) (messages : list Message) (system : string) (out : Stream) (e : string) :
  let r := run_turn input_data self w in
  trace (snd r) !! i = Some (EvModel messages system out) ->
  failure out = Some e ->
  fst r = Error e
  /\ S i = length (trace (snd r))
  /\ yielded (trace (snd r)) = []
  /\ _memory (agent (snd r))
     = _memory self ++ [msg "user" (_to_text_prompt input_data)]
  /\ assistant_entries (drop (length (_memory self)) (_memory (agent (snd r)))) = [].
Proof.
  intros r. subst r.
  destruct (run_turn_rounds input_data self w) as (t & res & w' & -> & Hrounds).
  cbn [fst snd trace agent]. intros Hi He.
  destruct (rounds_failure_last _ _ _ _ _ _ _ _ _ Hrounds _ _ _ _ _ Hi He)
    as (-> & Hlast & Hnothing).
  split; [done|]. split; [done|]. split; [done|].
  assert (_memory (turn_agent input_data self (Error e))
          = _memory self ++ [msg "user" (_to_text_prompt input_data)]) as Hmemory
    by apply to_messages_memory.
  split; [exact Hmemory|].
  rewrite Hmemory, drop_app_length. reflexivity.
Qed.

Lemma model_failure_propagates_witness :
  let r := @run_turn Scenario.failing_env
             (Scripted.user_says "What's the latest news on AI?")
             Scenario.searching_agent 0%nat in
  fst r = Error "connection lost"
  /\ length (trace (snd r)) = 3%nat
  /\ _memory (agent (snd r)) = [msg "user" "What's the latest news on AI?"].
Proof.
  destruct (@model_failure_propagates Scenario.failing_env
              (Scripted.user_says "What's the latest news on AI?")
              Scenario.searching_agent 0%nat
              2%nat _ _ _ "connection lost" eq_refl eq_refl)
    as (Herror & Hlast & _ & Hmemory & _).
  split; [exact Herror|]. split; [by rewrite <- Hlast | exact Hmemory].
Defined.

(** ** The system prompt over the life of an agent *)

Section SystemPrompt.
Context `{Env : Environment}.

Lemma handle_interrupt_system (heard : string) (self : BasicMemoryAgent) :
  _system (handle_interrupt heard self) = _system self.
Proof.
  unfold handle_interrupt. destruct (_interrupt_handled self); [done|].
  cbn. destruct (last (_memory self)) as [l|];
    [destruct (String.eqb (role l) "assistant")|];
    try destruct (PyStr.truthy heard); reflexivity.
Qed.

Lemma run_op_system (m : Machine) (op : Op) :
  _system (agent (run_op m op)) = _system (agent m).
Proof.
  destruct op as [input_data|heard| |conf_uid history_uid|human ais];
    cbn [run_op on_agent agent].
  - destruct (chat_with_memory_rounds input_data m) as (t & res & w' & -> & _).
    cbn [snd agent]. apply turn_agent_frame.
  - apply handle_interrupt_system.
  - reflexivity.
  - unfold set_memory_from_history. by rewrite load_history_log.
  - reflexivity.
Qed.

Lemma run_op_model_calls (m : Machine) (op : Op) :
  Forall (fun call => snd call = _system (agent m)) (model_calls (trace m)) ->
  Forall (fun call => snd call = _system (agent m))
    (model_calls (trace (run_op m op))).
Proof.
  intros Hbefore.
  destruct op as [input_data|heard| |conf_uid history_uid|human ais];
    try exact Hbefore.
  cbn [run_op]. destruct (chat_with_memory_rounds input_data m)
    as (t & res & w' & -> & Hrounds).
  cbn [snd trace]. unfold model_calls. rewrite omap_app.
  apply Forall_app. split; [done|].
  by eapply rounds_model_system.
Qed.

(** Every model call of a life gets the system prompt the agent started
    with. *)
Lemma run_ops_model_calls (ops : list Op) (m : Machine) :
  Forall (fun call => snd call = _system (agent m)) (model_calls (trace m)) ->
  _system (agent (run_ops ops m)) = _system (agent m)
  /\ Forall (fun call => snd call = _system (agent m))
       (model_calls (trace (run_ops ops m))).
Proof.
  revert m. induction ops as [|op ops IH]; intros m Hbefore; [done|].
  cbn [run_ops foldl]. fold (run_ops ops (run_op m op)).
  destruct (IH (run_op m op)) as [Hsys Hcalls].
  - rewrite run_op_system. by apply run_op_model_calls.
  - rewrite run_op_system in Hsys, Hcalls. done.
Qed.

End SystemPrompt.

(** C10.  Under the interrupt method ["user"], [set_system] stores the
    given text followed by the notice about the interruption signal, not
    the text alone; an agent constructed that way passes this extended
    text as the system prompt of every model call it makes afterwards.
    Under the method ["system"] the given text is stored unchanged. *)
Theorem system_prompt_carries_interrupt_notice `{Env : Environment}
    (system : string) (enabled : bool) (ops : list Op) (w : World) :
  let notice :=
    PyStr.LF +:+ PyStr.LF +:+
    "If you received `[interrupted by user]` signal, you were interrupted." in
  (forall self, interrupt_method self = "user" ->
     _system (set_system system self) = system +:+ notice)
  /\ _system (init system "user" enabled) = system +:+ notice
  /\ (forall call,
        call ∈ model_calls
                 (trace (run_ops ops (mkMachine (init system "user" enabled) w []))) ->
        snd call = system +:+ notice)
  /\ (forall self, interrupt_method self = "system" ->
        _system (set_system system self) = system)
  /\ _system (init system "system" enabled) = system.
Proof.
  intros notice. split; [|split; [|split; [|split]]].
  - intros self Hmethod. unfold set_system. by rewrite Hmethod.
  - reflexivity.
  - intros call Hcall.
    destruct (run_ops_model_calls ops (mkMachine (init system "user" enabled) w []))
      as [_ Hcalls]; [by constructor|].
    rewrite Forall_forall in Hcalls. by apply Hcalls.
  - intros self Hmethod. unfold set_system. by rewrite Hmethod.
  - reflexivity.
Qed.

Lemma system_prompt_carries_interrupt_notice_witness :
  let extended :=
    "Be brief." +:+ PyStr.LF +:+ PyStr.LF +:+
    "If you received `[interrupted by user]` signal, you were interrupted." in
  _system (set_system "Be brief." Scenario.plain_agent) = extended
  /\ snd ([msg "user" "Hello"], extended) = extended
  /\ _system (set_system "Be brief."
                (mkAgent [] EmptyString "system" false false)) = "Be brief.".
Proof.
  destruct (@system_prompt_carries_interrupt_notice Scenario.echo_env
              "Be brief." false
              [OpChat (Scripted.user_says "Hello"); OpHandleInterrupt "Echo";
               OpChat (Scripted.user_says "Again")]
              0%nat) as (Huser & _ & Hcalls & Hsystem & _).
  split; [exact (Huser Scenario.plain_agent eq_refl)|].
  split; [|exact (Hsystem (mkAgent [] EmptyString "system" false false) eq_refl)].
  apply Hcalls. vm_compute. apply list_elem_of_here.
Defined.

(** ** The two places where the code departs from its description *)

(** C1.  The turn that reaches the ceiling with a directive in the output
    of its last model call: the loop searches a second time and is left
    by its condition, so that nothing is yielded and the assistant message
    recorded is the empty string, not the last output of the model. *)
Theorem ceiling_with_directive_loses_final_text :
  let r := @run_turn Scenario.loop_env
             (Scripted.user_says "Keep searching for stuff.")
             Scenario.searching_agent 0%nat in
  fst r = Ok tt
  /\ last_output (trace (snd r)) = Some (Scripted.reply Scenario.always_searches)
  /\ Directive.search_query Scenario.always_searches = Some "something else"
  /\ length (model_calls (trace (snd r))) = 2%nat
  /\ searches (trace (snd r)) = [("something else", 3%nat); ("something else", 3%nat)]
  /\ yielded (trace (snd r)) = []
  /\ _memory (agent (snd r))
     = [msg "user" "Keep searching for stuff."; msg "assistant" EmptyString].
Proof. vm_compute. repeat split. Qed.

(** C2.  [set_system] leaves the memory alone and a new agent has an empty
    memory: after one turn with the search disabled the memory of a new
    agent holds the user message and the assistant message, with no system
    message before them. *)
Theorem fresh_agent_memory_has_no_system_message :
  (forall system self, _memory (set_system system self) = _memory self)
  /\ _memory Scenario.plain_agent = []
  /\ let r := @run_turn Scenario.echo_env (Scripted.user_says "Hello, world!")
                Scenario.plain_agent 0%nat in
     fst r = Ok tt
     /\ yielded (trace (snd r)) = PyStr.chars "Echo: Hello, world!"
     /\ _memory (agent (snd r))
        = [msg "user" "Hello, world!"; msg "assistant" "Echo: Hello, world!"]
     /\ length (_memory (agent (snd r))) = 2%nat.
Proof.
  split; [intros; apply set_system_keeps_memory|].
  split; [apply init_memory_empty|]. vm_compute. repeat split.
Qed.

(** * Further properties of the agent *)

(** ** What a user turn is made of *)

Section InputFacts.

Lemma texts_loop (tds : list TextData) (acc : list string) :
  foldl (fun parts text_data =>
           match td_source text_data with
           | INPUT => parts ++ [td_content text_data]
           | CLIPBOARD =>
               parts ++ ["[Clipboard content: " +:+ td_content text_data +:+ "]"]
           end) acc tds
  = acc ++ (text_part <$> tds).
Proof.
  revert acc. induction tds as [|td tds IH]; intros acc.
  - by rewrite app_nil_r.
  - cbn [foldl]. rewrite IH.
    destruct td as [[] c]; cbn [td_source td_content];
      rewrite <- app_assoc; reflexivity.
Qed.

Lemma images_loop (imgs : list ImageData) (k : nat) (acc : list string) :
  foldl (fun '(i, parts) img_data =>
           (S i,
            parts ++ ["- Image " +:+ PyStr.of_nat i +:+ " (" +:+
                      source_desc (img_source img_data) +:+ ")"]))
        (S k, acc) imgs
  = (S (k + length imgs), acc ++ imap (fun i img => image_line (k + i) img) imgs).
Proof.
  revert k acc. induction imgs as [|img imgs IH]; intros k acc.
  - cbn. by rewrite Nat.add_0_r, app_nil_r.
  - cbn [foldl]. rewrite IH. cbn [length imap]. f_equal; [lia|].
    rewrite <- app_assoc. cbn [app]. rewrite Nat.add_0_r. do 2 f_equal.
    apply imap_ext. intros i x _. cbn. f_equal. lia.
Qed.

Lemma image_items_loop (imgs : list ImageData) (items : list ContentItem) :
  foldl (fun content img => content ++ [ImageUrlItem (img_data img) "auto"]) items imgs
  = items ++ (image_item <$> imgs).
Proof.
  revert items. induction imgs as [|img imgs IH]; intros items.
  - by rewrite app_nil_r.
  - cbn [foldl fmap list_fmap]. by rewrite IH, <- app_assoc.
Qed.

Lemma text_parts_cons (item : ContentItem) (items : list ContentItem) :
  text_parts (item :: items)
  = match item with
    | TextItem t => t :: text_parts items
    | ImageUrlItem _ _ => text_parts items
    end.
Proof. by destruct item. Qed.

Lemma text_content_loop (items : list ContentItem) (acc : string) :
  foldl (fun acc item =>
           match item with
           | TextItem t => acc +:+ t
           | ImageUrlItem _ _ => acc
           end) acc items
  = acc +:+ foldr String.append EmptyString (text_parts items).
Proof.
  revert acc. induction items as [|item items IH]; intros acc.
  - change (acc = acc +:+ EmptyString). by rewrite PyStrFacts.app_nil_r.
  - cbn [foldl]. rewrite IH, text_parts_cons. destruct item as [t|u d].
    + cbn [foldr]. by rewrite PyStrFacts.app_assoc.
    + reflexivity.
Qed.

End InputFacts.

(** X1.  The text prompt of a batch input is its text parts, one line
    each in the order of the input (clipboard texts in their frame), and,
    when there are images, a blank line, the heading and one line per
    image numbered from 1 in the order of the input. *)
Theorem text_prompt_closed_form (input_data : BatchInput) :
  _to_text_prompt input_data
  = PyStr.join PyStr.LF
      ((text_part <$> texts input_data) ++
       match images input_data with
       | [] => []
       | imgs => (PyStr.LF +:+ "Images in this message:") :: imap image_line imgs
       end).
Proof.
  unfold _to_text_prompt. rewrite texts_loop. cbn [app].
  destruct (images input_data) as [|img imgs]; [by rewrite app_nil_r|].
  change 1%nat with (S 0). rewrite images_loop. cbn [snd].
  by rewrite <- app_assoc.
Qed.

(** X2.  What [_to_messages] hands to the model and what it records: the
    model gets the memory followed by the user message, which with images
    is the text prompt followed by one [image_url] part per image, in
    order, with the detail ["auto"]; the memory gets the text prompt alone,
    so no image data is ever recorded. *)
Theorem to_messages_splits_text_and_images (input_data : BatchInput)
    (self : BasicMemoryAgent) :
  let prompt := _to_text_prompt input_data in
  fst (_to_messages input_data self)
  = _memory self ++
      [mkMessage "user"
         (match images input_data with
          | [] => Text prompt
          | imgs => Parts (TextItem prompt :: (image_item <$> imgs))
          end) None None]
  /\ _memory (snd (_to_messages input_data self))
     = _memory self ++ [msg "user" prompt].
Proof.
  intros prompt. split.
  - cbn [_to_messages fst]. f_equal. unfold user_message.
    destruct (images input_data) as [|img imgs] eqn:Himg; [done|].
    by rewrite image_items_loop.
  - apply to_messages_memory.
Qed.

(** X3.  The text kept of a structured content is the concatenation of its
    text parts in order; the parts that are not text contribute nothing, so
    that the text of two contents put together is the two texts put
    together. *)
Theorem text_content_concatenates (items1 items2 : list ContentItem) :
  text_content (Parts items1) = foldr String.append EmptyString (text_parts items1)
  /\ text_content (Parts (items1 ++ items2))
     = text_content (Parts items1) +:+ text_content (Parts items2)
  /\ (forall url detail,
        text_content (Parts (items1 ++ ImageUrlItem url detail :: items2))
        = text_content (Parts (items1 ++ items2))).
Proof.
  assert (forall items,
            text_content (Parts items)
            = foldr String.append EmptyString (text_parts items)) as Hclosed.
  { intros items. unfold text_content. by rewrite text_content_loop. }
  assert (forall l1 l2 : list string,
            foldr String.append EmptyString (l1 ++ l2)
            = foldr String.append EmptyString l1
              +:+ foldr String.append EmptyString l2) as Hfoldr.
  { induction l1 as [|x l1 IH]; intros l2; [done|].
    cbn [app foldr]. by rewrite IH, PyStrFacts.app_assoc. }
  split; [apply Hclosed|]. split.
  - rewrite !Hclosed. unfold text_parts. by rewrite omap_app, Hfoldr.
  - intros url detail. rewrite !Hclosed. unfold text_parts.
    by rewrite !omap_app.
Qed.

(** X21.  [_add_message] appends exactly one message, with the role it
    is given and the text of the content.  The message carries a name
    (an avatar) exactly when the display text gives one that is not
    empty, and then that one. *)
Theorem add_message_keeps_nonempty_display (message : Content) (r : string)
    (display_text : option DisplayText) (self : BasicMemoryAgent) :
  exists m,
    _memory (_add_message message r display_text self) = _memory self ++ [m]
    /\ role m = r
    /\ content m = Text (text_content message)
    /\ (forall n, name m = Some n <->
          n <> EmptyString /\ exists d, display_text = Some d /\ dt_name d = Some n)
    /\ (forall a, avatar m = Some a <->
          a <> EmptyString /\ exists d, display_text = Some d /\ dt_avatar d = Some a).
Proof.
  unfold _add_message. eexists. split; [reflexivity|].
  destruct display_text as [[[[|c n]|] [[|c' a]|]]|]; cbn;
    (split; [reflexivity|]); (split; [reflexivity|]);
    split; intros x; split;
    first [ done
          | intros [= <-]; split; [done|]; by eexists
          | intros (_ & d & [= <-] & [= <-]); done
          | intros (Hx & d & [= <-] & [= <-]); done
          | intros (_ & d & Hd & _); done ].
Qed.

(** ** Interruptions *)

Section InterruptFacts.

Lemma set_last_content_snoc (c : string) (before : list Message) (l : Message) :
  set_last_content c (before ++ [l])
  = before ++ [mkMessage (role l) (Text c) (name l) (avatar l)].
Proof.
  unfold set_last_content. rewrite reverse_snoc. by rewrite reverse_involutive.
Qed.

(** The first interruption when the last message is the assistant's. *)
Lemma handle_interrupt_rewrites (heard : string) (self : BasicMemoryAgent)
    (before : list Message) (l : Message) :
  _interrupt_handled self = false ->
  _memory self = before ++ [l] ->
  role l = "assistant" ->
  _memory (handle_interrupt heard self)
  = before ++
      [mkMessage (role l) (Text (heard +:+ "...")) (name l) (avatar l);
       interrupt_marker self].
Proof.
  intros Hflag Hmem Hrole. unfold handle_interrupt. rewrite Hflag.
  cbn [with_interrupt_handled _memory]. rewrite Hmem, last_snoc.
  apply String.eqb_eq in Hrole as ->.
  cbn [with_memory _memory interrupt_method].
  rewrite set_last_content_snoc, <- app_assoc. reflexivity.
Qed.

(** The first interruption in the other cases: an empty memory, or a last
    message that is not the assistant's. *)
Lemma handle_interrupt_appends (heard : string) (self : BasicMemoryAgent) :
  _interrupt_handled self = false ->
  (forall l, last (_memory self) = Some l -> role l <> "assistant") ->
  _memory (handle_interrupt heard self)
  = _memory self ++
      (if PyStr.truthy heard then [msg "assistant" (heard +:+ "...")] else []) ++
      [interrupt_marker self].
Proof.
  intros Hflag Hlast. unfold handle_interrupt. rewrite Hflag.
  cbn [with_interrupt_handled _memory].
  destruct (last (_memory self)) as [l|] eqn:Hl.
  - destruct (String.eqb_spec (role l) "assistant") as [Hrole|_];
      [by destruct (Hlast l eq_refl)|].
    destruct (PyStr.truthy heard); cbn [with_memory _memory interrupt_method app];
      [by rewrite <- app_assoc | reflexivity].
  - destruct (PyStr.truthy heard); cbn [with_memory _memory interrupt_method app];
      [by rewrite <- app_assoc | reflexivity].
Qed.

Lemma handle_interrupt_frame (heard : string) (self : BasicMemoryAgent) :
  _system (handle_interrupt heard self) = _system self
  /\ interrupt_method (handle_interrupt heard self) = interrupt_method self
  /\ _enable_web_search (handle_interrupt heard self) = _enable_web_search self.
Proof.
  unfold handle_interrupt. destruct (_interrupt_handled self); [done|].
  cbn. destruct (last (_memory self)) as [l|];
    [destruct (String.eqb (role l) "assistant")|];
    try destruct (PyStr.truthy heard); done.
Qed.

(** A memory is empty, ends with an assistant message, or ends with
    another message. *)
Lemma memory_end_cases (mem : list Message) :
  (exists before l, mem = before ++ [l] /\ role l = "assistant")
  \/ (forall l, last mem = Some l -> role l <> "assistant").
Proof.
  destruct mem as [|m mem] using rev_ind; [by right|].
  destruct (decide (role m = "assistant")) as [Hrole|Hrole].
  - left. by exists mem, m.
  - right. intros l. rewrite last_snoc. by intros [= <-].
Qed.

End InterruptFacts.

(** X4.  The first interruption since the last reset never removes a
    message: it leaves every message but the last one as it is, adds one or
    two messages, ends the memory with the interruption marker, whose role
    is ["system"] under the interrupt method ["system"] and ["user"]
    otherwise, and arms the guard. *)
Theorem interrupt_adds_marker_and_keeps_history (heard : string)
    (self : BasicMemoryAgent) :
  _interrupt_handled self = false ->
  let after := handle_interrupt heard self in
  let n := length (_memory self) in
  _interrupt_handled after = true
  /\ last (_memory after) = Some (interrupt_marker self)
  /\ (n < length (_memory after) <= n + 2)%nat
  /\ take (n - 1) (_memory after) = take (n - 1) (_memory self).
Proof.
  intros Hflag after n. subst after n.
  split; [apply handle_interrupt_sets_flag|].
  destruct (memory_end_cases (_memory self)) as [(before & l & Hmem & Hrole)|Hother].
  - rewrite (handle_interrupt_rewrites heard self before l Hflag Hmem Hrole), Hmem.
    rewrite !length_app. cbn [length].
    replace (length before + 1 - 1)%nat with (length before) by lia.
    split; [by rewrite last_app_cons|]. split; [lia|].
    by rewrite !take_app_length.
  - rewrite (handle_interrupt_appends heard self Hflag Hother).
    rewrite app_assoc, last_snoc. split; [done|].
    rewrite !length_app. cbn [length].
    split; [destruct (PyStr.truthy heard); cbn [length]; lia|].
    rewrite <- app_assoc. rewrite take_app_le by lia. reflexivity.
Qed.

Lemma interrupt_adds_marker_and_keeps_history_witness :
  let self := mkAgent [msg "user" "Tell a story"; msg "assistant" "Once upon a time"]
                      "S" "user" false false in
  last (_memory (handle_interrupt "Once" self)) = Some (msg "user" "[Interrupted by user]")
  /\ take 1 (_memory (handle_interrupt "Once" self)) = [msg "user" "Tell a story"].
Proof.
  destruct (interrupt_adds_marker_and_keeps_history "Once"
              (mkAgent [msg "user" "Tell a story"; msg "assistant" "Once upon a time"]
                       "S" "user" false false) eq_refl)
    as (_ & Hlast & _ & Hkept).
  split; [exact Hlast | exact Hkept].
Defined.

(** X5.  What the first interruption records of the answer.  When the
    memory ends with an assistant message, the content of that message is
    replaced by the heard text followed by ["..."], also when nothing was
    heard, while its role, name and avatar stay; no assistant message is
    added.  Otherwise an assistant message with the heard text followed by
    ["..."] is added when something was heard, and none when nothing
    was. *)
Theorem interrupt_records_heard_text (heard : string) (self : BasicMemoryAgent) :
  _interrupt_handled self = false ->
  (forall before l,
     _memory self = before ++ [l] -> role l = "assistant" ->
     _memory (handle_interrupt heard self)
     = before ++
         [mkMessage "assistant" (Text (heard +:+ "...")) (name l) (avatar l);
          interrupt_marker self])
  /\ ((forall l, last (_memory self) = Some l -> role l <> "assistant") ->
      _memory (handle_interrupt heard self)
      = _memory self ++
          match heard with
          | EmptyString => [interrupt_marker self]
          | _ => [msg "assistant" (heard +:+ "..."); interrupt_marker self]
          end).
Proof.
  intros Hflag. split.
  - intros before l Hmem Hrole.
    rewrite (handle_interrupt_rewrites heard self before l Hflag Hmem Hrole).
    by rewrite Hrole.
  - intros Hother. rewrite (handle_interrupt_appends heard self Hflag Hother).
    by destruct heard.
Qed.

Lemma interrupt_records_heard_text_witness :
  let self := mkAgent [msg "user" "Tell a story";
                       mkMessage "assistant" (Text "Once upon a time") (Some "Mao") None]
                      "S" "system" false false in
  _memory (handle_interrupt EmptyString self)
  = [msg "user" "Tell a story";
     mkMessage "assistant" (Text "...") (Some "Mao") None;
     msg "system" "[Interrupted by user]"].
Proof.
  destruct (interrupt_records_heard_text EmptyString
              (mkAgent [msg "user" "Tell a story";
                        mkMessage "assistant" (Text "Once upon a time") (Some "Mao") None]
                       "S" "system" false false) eq_refl) as [Hrewrite _].
  exact (Hrewrite [msg "user" "Tell a story"]
           (mkMessage "assistant" (Text "Once upon a time") (Some "Mao") None)
           eq_refl eq_refl).
Defined.

(** X6.  [reset_interrupt] arms the agent again: whatever the guard was,
    an interruption that follows a reset is recorded, so that the memory
    grows and ends with the marker; a second interruption without a reset
    between the two would have added nothing. *)
Theorem reset_interrupt_rearms (heard1 heard2 : string) (self : BasicMemoryAgent) :
  let once := handle_interrupt heard1 self in
  let again := handle_interrupt heard2 (reset_interrupt once) in
  last (_memory again) = Some (interrupt_marker self)
  /\ (length (_memory once) < length (_memory again))%nat
  /\ _memory (handle_interrupt heard2 once) = _memory once
  /\ _interrupt_handled again = true.
Proof.
  intros once again. subst again.
  assert (_interrupt_handled (reset_interrupt once) = false) as Hclear by reflexivity.
  assert (interrupt_marker (reset_interrupt once) = interrupt_marker self) as Hmarker.
  { unfold interrupt_marker. cbn [reset_interrupt with_interrupt_handled interrupt_method].
    subst once. by destruct (handle_interrupt_frame heard1 self) as (_ & -> & _). }
  split; [|split; [|split]].
  - rewrite <- Hmarker.
    destruct (memory_end_cases (_memory (reset_interrupt once)))
      as [(before & l & Hmem & Hrole)|Hother].
    + rewrite (handle_interrupt_rewrites _ _ before l Hclear Hmem Hrole).
      by rewrite last_app_cons.
    + rewrite (handle_interrupt_appends _ _ Hclear Hother).
      by rewrite app_assoc, last_snoc.
  - change (_memory once) with (_memory (reset_interrupt once)).
    destruct (memory_end_cases (_memory (reset_interrupt once)))
      as [(before & l & Hmem & Hrole)|Hother].
    + rewrite (handle_interrupt_rewrites _ _ before l Hclear Hmem Hrole), Hmem.
      rewrite !length_app. cbn [length]. lia.
    + rewrite (handle_interrupt_appends _ _ Hclear Hother).
      rewrite !length_app. cbn [length]. lia.
  - subst once. by rewrite handle_interrupt_handled
      by apply handle_interrupt_sets_flag.
  - apply handle_interrupt_sets_flag.
Qed.

(** ** History and the shape of the memory *)

(** X7.  Loading a history forgets what was loaded or said before: of two
    loads in a row only the second counts.  A load leaves the interruption
    guard as it was, puts the system message first and gives every other
    message the role ["user"] or ["assistant"]. *)
Theorem history_load_overrides `{Env : Environment}
    (conf1 hist1 conf2 hist2 : string) (w1 w2 : World) (self : BasicMemoryAgent) :
  let loaded := set_memory_from_history conf2 hist2 w2 self in
  set_memory_from_history conf2 hist2 w2
    (set_memory_from_history conf1 hist1 w1 self) = loaded
  /\ _interrupt_handled loaded = _interrupt_handled self
  /\ head (_memory loaded) = Some (msg "system" (_system self))
  /\ Forall (fun m => role m = "user" \/ role m = "assistant") (tail (_memory loaded)).
Proof.
  intros loaded. subst loaded. unfold set_memory_from_history.
  rewrite !load_history_log. split; [reflexivity|]. split; [reflexivity|].
  split; [reflexivity|]. cbn [with_memory _memory tail].
  apply Forall_fmap, Forall_forall. intros h _. cbn.
  destruct (String.eqb (h_role h) "human"); auto.
Qed.

Section ShapeFacts.
Context `{Env : Environment}.

Lemma turn_agent_memory (input_data : BatchInput) (self : BasicMemoryAgent)
    (res : Result string) :
  _memory (turn_agent input_data self res)
  = _memory self ++
      msg "user" (_to_text_prompt input_data) ::
      match res with
      | Ok complete_response => [msg "assistant" complete_response]
      | _ => []
      end.
Proof.
  unfold turn_agent.
  destruct res as [cr|e|];
    cbn [_add_message text_content _memory with_memory];
    rewrite to_messages_memory; [|done..].
  by rewrite <- app_assoc.
Qed.

Lemma interrupt_marker_shaped (self : BasicMemoryAgent) :
  well_shaped (interrupt_marker self).
Proof.
  unfold interrupt_marker.
  by destruct (String.eqb (interrupt_method self) "system").
Qed.

Lemma handle_interrupt_shaped (heard : string) (self : BasicMemoryAgent) :
  Forall well_shaped (_memory self) ->
  Forall well_shaped (_memory (handle_interrupt heard self)).
Proof.
  intros Hmem. destruct (_interrupt_handled self) eqn:Hflag.
  { by rewrite handle_interrupt_handled. }
  destruct (memory_end_cases (_memory self)) as [(before & l & Hl & Hrole)|Hother].
  - rewrite (handle_interrupt_rewrites heard self before l Hflag Hl Hrole).
    rewrite Hl in Hmem. apply Forall_app in Hmem as [Hbefore _].
    apply Forall_app. split; [done|].
    repeat constructor; [|apply interrupt_marker_shaped..].
    unfold known_role. cbn [role]. by rewrite Hrole.
  - rewrite (handle_interrupt_appends heard self Hflag Hother).
    apply Forall_app. split; [done|]. apply Forall_app. split.
    + by destruct (PyStr.truthy heard); repeat constructor.
    + repeat constructor; apply interrupt_marker_shaped.
Qed.

Lemma run_op_shaped (m : Machine) (op : Op) :
  Forall well_shaped (_memory (agent m)) ->
  Forall well_shaped (_memory (agent (run_op m op))).
Proof.
  intros Hmem.
  destruct op as [input_data|heard| |conf_uid history_uid|human ais];
    cbn [run_op on_agent agent].
  - destruct (chat_with_memory_rounds input_data m) as (t & res & w' & -> & _).
    cbn [snd agent]. rewrite turn_agent_memory.
    apply Forall_app. split; [done|].
    destruct res; by repeat constructor.
  - by apply handle_interrupt_shaped.
  - exact Hmem.
  - unfold set_memory_from_history. rewrite load_history_log.
    cbn [with_memory _memory]. constructor; [done|].
    apply Forall_fmap, Forall_forall. intros h _.
    unfold compose, history_entry.
    by destruct (String.eqb (h_role h) "human").
  - cbn [start_group_conversation with_memory _memory].
    apply Forall_app. split; [done|]. by repeat constructor.
Qed.

End ShapeFacts.

(** X8.  Whatever an agent goes through after its construction (turns
    with or without images, interruptions, resets, history loads, group
    contexts), every message of its memory has a plain text as content and
    one of the roles ["system"], ["user"] and ["assistant"]. *)
Theorem memory_stays_textual `{Env : Environment}
    (system method : string) (enabled : bool) (ops : list Op) (w : World) :
  Forall (fun m => text_only m = true /\ known_role m = true)
    (_memory (agent (run_ops ops (mkMachine (init system method enabled) w [])))).
Proof.
  assert (forall m, Forall well_shaped (_memory (agent m)) ->
                    Forall well_shaped (_memory (agent (run_ops ops m)))) as Hlife.
  { induction ops as [|op ops IH]; intros m Hm; [done|].
    cbn [run_ops foldl]. apply IH. by apply run_op_shaped. }
  apply (Hlife (mkMachine (init system method enabled) w [])). constructor.
Qed.

(** ** More on the turn loop *)

Section MoreRoundsFacts.
Context `{Env : Environment}.
Variables (sys : string) (enabled : bool).

(** What the loop returns is what it yielded. *)
Lemma rounds_result_is_yielded n messages cr0 w t res w' :
  rounds sys enabled n messages cr0 w t res w' ->
  cr0 = EmptyString ->
  forall cr, res = Ok cr -> cr = PyStr.accumulate EmptyString (yielded t).
Proof.
  induction 1 as [ messages cr0 w
                 | n messages cr0 w out w1 e0 Hcall Hfail
                 | n messages cr0 w out w1 Hcall Hfail Hnone
                 | n messages cr0 w out w1 group1 r w2 t res w3
                     Hcall Hfail Hen Hre Hsearch Hrest IH ];
    intros Hcr0 cr Hres.
  - inversion Hres; subst. reflexivity.
  - done.
  - inversion Hres; subst.
    by rewrite yielded_cons, yielded_yields, PyStrFacts.chars_whole.
  - rewrite !yielded_cons. by apply IH.
Qed.

(** The loop calls the model at most once per iteration it is allowed. *)
Lemma rounds_model_calls_le n messages cr w t res w' :
  rounds sys enabled n messages cr w t res w' ->
  (length (model_calls t) <= n)%nat.
Proof.
  induction 1;
    rewrite ?model_calls_cons, ?model_calls_yields, ?model_calls_nil;
    cbn [length]; lia.
Qed.

(** The loop raises only the exception of its last model call, and every
    search it made returned. *)
Lemma rounds_error_from_model n messages cr w t res w' :
  rounds sys enabled n messages cr w t res w' ->
  (forall e, res = Error e ->
     exists messages' out,
       last t = Some (EvModel messages' sys out) /\ failure out = Some e)
  /\ (forall i query num_results result,
        t !! i = Some (EvSearch query num_results result) ->
        exists text, result = Returned text).
Proof.
  induction 1 as [ messages cr0 w
                 | n messages cr0 w out w1 e0 Hcall Hfail
                 | n messages cr0 w out w1 Hcall Hfail Hnone
                 | n messages cr0 w out w1 group1 r w2 t res w3
                     Hcall Hfail Hen Hre Hsearch Hrest [IHerr IHsearch] ].
  - split; [done|]. intros i ? ? ? Hi. by destruct i.
  - split.
    + intros e [= <-]. by exists messages, out.
    + intros [|[|i]] ? ? ? Hi; done.
  - split; [done|]. intros [|i] ? ? ? Hi; [done|].
    cbn in Hi. by apply lookup_yields in Hi.
  - split.
    + intros e He. destruct (IHerr e He) as (messages' & out' & Hlast & Hfailed).
      exists messages', out'. split; [|done].
      destruct t as [|ev t]; [done|]. by rewrite !last_cons_cons.
    + intros [|[|i]] ? ? ? Hi; [done| |].
      * cbn in Hi. inversion Hi; subst. by eexists.
      * cbn in Hi. by eapply IHsearch.
Qed.

End MoreRoundsFacts.

Section MoreTurnFacts.
Context `{Env : Environment}.

(** A turn whose first model call fails, or gives a text that is not
    taken for a search request, is over after that call. *)
Lemma single_round (input_data : BatchInput) (self : BasicMemoryAgent) (w : World) :
  let messages := _memory self ++ [user_message input_data] in
  let out := fst (chat_completion messages (_system self) w) in
  let w1 := snd (chat_completion messages (_system self) w) in
  failure out <> None
  \/ (if _enable_web_search self then Directive.re_search (raw_of out) else None) = None ->
  run_turn input_data self w
  = match failure out with
    | Some e =>
        (Error e,
         mkMachine (turn_agent input_data self (Error e)) w1
           [EvModel messages (_system self) out])
    | None =>
        (Ok tt,
         mkMachine (turn_agent input_data self (Ok (raw_of out))) w1
           (EvModel messages (_system self) out
              :: (EvYield <$> PyStr.chars (raw_of out))))
    end.
Proof.
  intros messages out w1 Hfinal.
  destruct (run_turn_rounds input_data self w) as (t & res & w' & -> & Hrounds).
  apply rounds_S_inv in Hrounds as (out' & w1' & Hcall & Hcases).
  fold messages in Hcall. subst out w1. rewrite Hcall in *. cbn [fst snd] in *.
  destruct Hcases as [(e & Hfail & -> & -> & ->)
                     |[(Hfail & _ & -> & -> & ->)
                      |(g & r & w2 & t' & Hfail & Hen & Hre & _)]].
  - by rewrite Hfail.
  - by rewrite Hfail.
  - rewrite Hen, Hre in Hfinal. by destruct Hfinal.
Qed.

End MoreTurnFacts.

(** X9.  What a completed turn records is what it showed: the memory
    gains the user message and one assistant message, whose content is the
    concatenation of the tokens that the turn yielded, in every case, with
    the search enabled or not. *)
Theorem completed_turn_records_what_it_yielded `{Env : Environment}
    (input_data : BatchInput) (self : BasicMemoryAgent) (w : World) :
  let r := run_turn input_data self w in
  fst r = Ok tt ->
  _memory (agent (snd r))
  = _memory self ++
      [msg "user" (_to_text_prompt input_data);
       msg "assistant" (PyStr.accumulate EmptyString (yielded (trace (snd r))))].
Proof.
  intros r. subst r.
  destruct (run_turn_rounds input_data self w) as (t & res & w' & -> & Hrounds).
  cbn [fst snd agent trace]. intros Hok.
  destruct res as [cr|e|]; [|done..].
  rewrite turn_agent_memory.
  by rewrite <- (rounds_result_is_yielded _ _ _ _ _ _ _ _ _ Hrounds eq_refl cr eq_refl).
Qed.

Lemma completed_turn_records_what_it_yielded_witness :
  let r := @run_turn Scenario.one_round_env
             (Scripted.user_says "What's the latest news on AI?")
             Scenario.searching_agent 0%nat in
  _memory (agent (snd r))
  = [msg "user" "What's the latest news on AI?";
     msg "assistant" (PyStr.accumulate EmptyString (yielded (trace (snd r))))].
Proof.
  exact (@completed_turn_records_what_it_yielded Scenario.one_round_env
           (Scripted.user_says "What's the latest news on AI?")
           Scenario.searching_agent 0%nat eq_refl).
Defined.

(** X10.  A turn calls the model at least once and at most twice; its
    first call gets the memory as it was before the turn followed by the
    user message of the turn. *)
Theorem turn_calls_model_once_or_twice `{Env : Environment}
    (input_data : BatchInput) (self : BasicMemoryAgent) (w : World) :
  let calls := model_calls (trace (snd (run_turn input_data self w))) in
  (1 <= length calls <= 2)%nat
  /\ head calls = Some (_memory self ++ [user_message input_data], _system self).
Proof.
  intros calls. subst calls.
  destruct (run_turn_rounds input_data self w) as (t & res & w' & -> & Hrounds).
  cbn [snd trace].
  pose proof (rounds_model_calls_le _ _ _ _ _ _ _ _ _ Hrounds) as Hle.
  apply rounds_S_inv in Hrounds as (out & w1 & _ & Hcases).
  destruct Hcases as [(e & _ & -> & _)
                     |[(_ & _ & -> & _)|(g & r & w2 & t' & _ & _ & _ & _ & _ & ->)]];
    rewrite model_calls_cons in *; cbn [length head] in *;
    (split; [unfold MAX_SEARCH_ITERATIONS in Hle; lia | done]).
Qed.

(** X11.  A turn that searched twice has used up its two model calls in
    the search branch: it ends without raising, yields nothing and records
    the empty string as the assistant message. *)
Theorem two_searches_leave_empty_answer `{Env : Environment}
    (input_data : BatchInput) (self : BasicMemoryAgent) (w : World) :
  let r := run_turn input_data self w in
  length (searches (trace (snd r))) = 2%nat ->
  fst r = Ok tt
  /\ yielded (trace (snd r)) = []
  /\ length (model_calls (trace (snd r))) = 2%nat
  /\ _memory (agent (snd r))
     = _memory self ++
         [msg "user" (_to_text_prompt input_data); msg "assistant" EmptyString].
Proof.
  intros r. subst r.
  destruct (run_turn_rounds input_data self w) as (t & res & w' & -> & Hrounds).
  cbn [fst snd agent trace]. intros Htwo.
  unfold MAX_SEARCH_ITERATIONS in Hrounds.
  apply rounds_S_inv in Hrounds as (out1 & w1 & Hcall1 & Hcases).
  destruct Hcases as [(e & _ & -> & _)
                     |[(_ & _ & -> & _)
                      |(g & r & w2 & t' & _ & _ & _ & _ & Hrounds & ->)]].
  - by rewrite searches_cons in Htwo.
  - by rewrite searches_cons, searches_yields in Htwo.
  - apply rounds_S_inv in Hrounds as (out2 & w3 & Hcall2 & Hcases).
    destruct Hcases as [(e & _ & -> & _)
                       |[(_ & _ & -> & _)
                        |(g2 & r2 & w4 & t'' & _ & _ & _ & _ & Hrounds & ->)]].
    + by rewrite !searches_cons in Htwo.
    + by rewrite !searches_cons, searches_yields in Htwo.
    + apply rounds_0_inv in Hrounds as (-> & -> & ->).
      rewrite turn_agent_memory. done.
Qed.

Lemma two_searches_leave_empty_answer_witness :
  let r := @run_turn Scenario.loop_env
             (Scripted.user_says "Keep searching for stuff.")
             Scenario.searching_agent 0%nat in
  fst r = Ok tt /\ yielded (trace (snd r)) = [].
Proof.
  destruct (@two_searches_leave_empty_answer Scenario.loop_env
              (Scripted.user_says "Keep searching for stuff.")
              Scenario.searching_agent 0%nat eq_refl) as (Hok & Hnothing & _).
  split; [exact Hok | exact Hnothing].
Defined.

(** X12.  A turn raises only when a model call failed: the exception is
    that of the last event of the turn, a model call.  The search tool
    never ends a turn: every search of a turn returned a text. *)
Theorem turn_raises_only_model_failures `{Env : Environment}
    (input_data : BatchInput) (self : BasicMemoryAgent) (w : World) :
  let r := run_turn input_data self w in
  (forall e, fst r = Error e ->
     exists messages out,
       last (trace (snd r)) = Some (EvModel messages (_system self) out)
       /\ failure out = Some e)
  /\ (forall i query num_results result,
        trace (snd r) !! i = Some (EvSearch query num_results result) ->
        exists text, result = Returned text).
Proof.
  intros r. subst r.
  destruct (run_turn_rounds input_data self w) as (t & res & w' & -> & Hrounds).
  cbn [fst snd trace].
  destruct (rounds_error_from_model _ _ _ _ _ _ _ _ _ Hrounds) as [Herr Hsearch].
  split; [|exact Hsearch].
  intros e He. apply Herr. by destruct res; inversion He.
Qed.

Lemma turn_raises_only_model_failures_witness :
  let r := @run_turn Scenario.failing_env
             (Scripted.user_says "What's the latest news on AI?")
             Scenario.searching_agent 0%nat in
  exists messages out,
    last (trace (snd r)) = Some (EvModel messages (_system Scenario.searching_agent) out)
    /\ failure out = Some "connection lost".
Proof.
  destruct (@turn_raises_only_model_failures Scenario.failing_env
              (Scripted.user_says "What's the latest news on AI?")
              Scenario.searching_agent 0%nat) as [Herr _].
  exact (Herr "connection lost" eq_refl).
Defined.

(** X13.  When the search is enabled and the first model call gives a
    text with a directive, the search tool is asked for the stripped
    query with the hint 3 in the world the model left, and, whatever text
    it returns, the model is called again, in the world the search left,
    with the message list of the first call followed by the attempt, as an
    assistant message, and by the search results, as a user message. *)
Theorem search_results_are_fed_back `{Env : Environment}
    (input_data : BatchInput) (self : BasicMemoryAgent) (w w1 : World)
    (out : Stream) (group1 : string) :
  let messages := _memory self ++ [user_message input_data] in
  _enable_web_search self = true ->
  chat_completion messages (_system self) w = (out, w1) ->
  failure out = None ->
  Directive.re_search (raw_of out) = Some group1 ->
  exists text w2 out2 w3,
    search_web (PyStr.strip group1) 3 w1 = (Returned text, w2)
    /\ chat_completion
         (messages ++
            [msg "assistant" (raw_of out);
             msg "user" (search_context_message (PyStr.strip group1) text)])
         (_system self) w2 = (out2, w3)
    /\ take 3 (trace (snd (run_turn input_data self w)))
       = [EvModel messages (_system self) out;
          EvSearch (PyStr.strip group1) 3 (Returned text);
          EvModel
            (messages ++
               [msg "assistant" (raw_of out);
                msg "user" (search_context_message (PyStr.strip group1) text)])
            (_system self) out2].
Proof.
  intros messages Hen Hcall Hfail Hre.
  destruct (run_turn_rounds input_data self w) as (t & res & w' & -> & Hrounds).
  cbn [snd trace]. unfold MAX_SEARCH_ITERATIONS in Hrounds.
  apply rounds_S_inv in Hrounds as (out' & w1' & Hcall' & Hcases).
  fold messages in Hcall'. rewrite Hcall in Hcall'. inversion Hcall'; subst out' w1'.
  destruct Hcases as [(e & Hfail' & _)
                     |[(_ & Hnone & _)
                      |(g & text & w2 & t' & _ & _ & Hre' & Hsearch & Hrounds & ->)]].
  - congruence.
  - rewrite Hen, Hre in Hnone. done.
  - rewrite Hre in Hre'. inversion Hre'; subst g.
    apply rounds_S_inv in Hrounds as (out2 & w3 & Hcall2 & Hcases).
    exists text, w2, out2, w3. split; [done|]. split; [done|].
    destruct Hcases as [(e & _ & -> & _)
                       |[(_ & _ & -> & _)|(g2 & r2 & w4 & t'' & _ & _ & _ & _ & _ & ->)]];
      reflexivity.
Qed.

Lemma search_results_are_fed_back_witness :
  exists text out2,
    take 3 (trace (snd (@run_turn Scenario.failing_env
                          (Scripted.user_says "What's the latest news on AI?")
                          Scenario.searching_agent 0%nat)))
    = [EvModel [msg "user" "What's the latest news on AI?"]
         (_system Scenario.searching_agent) (Scripted.reply Scenario.first_attempt);
       EvSearch "latest AI news" 3 (Returned text);
       EvModel
         [msg "user" "What's the latest news on AI?";
          msg "assistant" Scenario.first_attempt;
          msg "user" (search_context_message "latest AI news" text)]
         (_system Scenario.searching_agent) out2].
Proof.
  destruct (@search_results_are_fed_back Scenario.failing_env
              (Scripted.user_says "What's the latest news on AI?")
              Scenario.searching_agent 0%nat 1%nat
              (Scripted.reply Scenario.first_attempt) "latest AI news"
              eq_refl eq_refl eq_refl eq_refl)
    as (text & w2 & out2 & w3 & _ & _ & Htrace).
  exists text, out2. exact Htrace.
Defined.

(** X14.  When the first model call fails, or gives a text in which the
    pattern of the directive matches nowhere, an agent with the search
    enabled does exactly what the same agent with the search disabled
    does: same result, same events, same world and same memory. *)
Theorem search_unobservable_without_directive `{Env : Environment}
    (input_data : BatchInput) (self : BasicMemoryAgent) (w : World) :
  let messages := _memory self ++ [user_message input_data] in
  let out := fst (chat_completion messages (_system self) w) in
  let disabled :=
    mkAgent (_memory self) (_system self) (interrupt_method self) false
            (_interrupt_handled self) in
  failure out <> None \/ Directive.re_search (raw_of out) = None ->
  let r := run_turn input_data self w in
  let r' := run_turn input_data disabled w in
  fst r = fst r'
  /\ trace (snd r) = trace (snd r')
  /\ world (snd r) = world (snd r')
  /\ _memory (agent (snd r)) = _memory (agent (snd r')).
Proof.
  intros messages out disabled Hplain r r'. subst r r'.
  rewrite (single_round input_data self w).
  2:{ fold messages out. destruct Hplain as [Hfail|Hnone]; [by left|right].
      rewrite Hnone. by destruct (_enable_web_search self). }
  rewrite (single_round input_data disabled w) by (by right).
  cbn [_memory _system disabled]. fold messages out.
  destruct (failure out); cbn [fst snd trace world agent];
    by rewrite !turn_agent_memory.
Qed.

Lemma search_unobservable_without_directive_witness :
  let plain := mkStream ["Here's "; "a normal answer."] None in
  let env := Scripted.env [plain] (Returned []) [] in
  let r := @run_turn env (Scripted.user_says "Just a normal question.")
             Scenario.searching_agent 0%nat in
  trace (snd r)
  = trace (snd (@run_turn env (Scripted.user_says "Just a normal question.")
                  (mkAgent [] (_system Scenario.searching_agent) "user" false false)
                  0%nat)).
Proof.
  intros plain env.
  destruct (@search_unobservable_without_directive env
              (Scripted.user_says "Just a normal question.")
              Scenario.searching_agent 0%nat (or_intror eq_refl))
    as (_ & Htrace & _).
  exact Htrace.
Defined.

(** ** More on the directive *)

Section MoreDirectiveFacts.
Import PyStr Directive.

Lemma lazy_group_complete (body after : string) :
  single_line body = true ->
  is_Some (lazy_group (body +:+ "]" +:+ after)).
Proof.
  induction body as [|c body IH]; intros Hline; [by eexists|].
  rewrite PyStrFacts.app_cons. cbn [lazy_group].
  destruct (Ascii.eqb c "]"%char); [by eexists|].
  unfold single_line in Hline. cbn [PyStr.forallb] in Hline.
  apply andb_true_iff in Hline as [Hc Hline].
  apply negb_true_iff in Hc as ->.
  destruct (IH Hline) as [g ->]. by eexists.
Qed.

Lemma spaces_then_group_complete (s : string) :
  is_Some (lazy_group s) -> is_Some (spaces_then_group s).
Proof.
  destruct s as [|c s]; [done|]. intros Hlazy. cbn [spaces_then_group].
  destruct (is_space c); [|done].
  by destruct (spaces_then_group s); [eexists|].
Qed.

Lemma drop_prefix_app (p s : string) : drop_prefix p (p +:+ s) = Some s.
Proof.
  induction p as [|a p IH]; [done|].
  rewrite PyStrFacts.app_cons. cbn [drop_prefix]. by rewrite Ascii.eqb_refl.
Qed.

Lemma re_search_complete (before rest : string) :
  is_Some (match_here rest) -> is_Some (re_search (before +:+ rest)).
Proof.
  intros [g Hg]. induction before as [|c before IH].
  - rewrite PyStrFacts.app_nil_l. destruct rest; cbn [re_search]; by rewrite Hg.
  - rewrite PyStrFacts.app_cons. cbn [re_search].
    by destruct (match_here (String c (before +:+ rest))).
Qed.

Lemma lazy_group_single_line (s group1 : string) :
  lazy_group s = Some group1 -> single_line group1 = true.
Proof.
  revert group1. induction s as [|c s IH]; intros group1 H; [done|].
  cbn in H. destruct (Ascii.eqb c "]"%char); [by inversion H|].
  destruct (Ascii.eqb c "010"%char) eqn:Hc; [done|].
  destruct (lazy_group s) as [g|]; [|done]. inversion H; subst.
  unfold single_line in *. cbn. by rewrite Hc, (IH g eq_refl).
Qed.

Lemma spaces_then_group_single_line (s group1 : string) :
  spaces_then_group s = Some group1 -> single_line group1 = true.
Proof.
  revert group1. induction s as [|c s IH]; intros group1 H; [done|].
  cbn [spaces_then_group] in H.
  destruct (is_space c); [|by eapply lazy_group_single_line].
  destruct (spaces_then_group s) as [g|]; [|by eapply lazy_group_single_line].
  inversion H; subst. by apply IH.
Qed.

Lemma re_search_group (s group1 : string) :
  re_search s = Some group1 ->
  single_line group1 = true /\ bracket_free group1 = true.
Proof.
  intros (before & rest & -> & Hrest & _)%re_search_leftmost. split.
  - unfold match_here in Hrest.
    destruct (drop_prefix TAG rest) as [rest'|]; [|done].
    by eapply spaces_then_group_single_line.
  - by apply match_here_sound in Hrest as (? & ? & _ & _ & ?).
Qed.

Lemma forallb_lstrip (f : ascii -> bool) (s : string) :
  PyStr.forallb f s = true -> PyStr.forallb f (lstrip s) = true.
Proof.
  induction s as [|c s IH]; [done|]. cbn [lstrip].
  destruct (is_space c); [|done].
  cbn. intros [_ Hs]%andb_true_iff. auto.
Qed.

Lemma forallb_rstrip (f : ascii -> bool) (s : string) :
  PyStr.forallb f s = true -> PyStr.forallb f (rstrip s) = true.
Proof.
  induction s as [|c s IH]; [done|]. cbn [rstrip PyStr.forallb].
  intros [Hc Hs]%andb_true_iff. specialize (IH Hs).
  destruct (rstrip s) as [|c' r].
  - destruct (is_space c); [done|]. cbn. by rewrite Hc.
  - cbn [PyStr.forallb] in *. by rewrite Hc.
Qed.

Lemma lstrip_idempotent (s : string) : lstrip (lstrip s) = lstrip s.
Proof.
  induction s as [|c s IH]; [done|]. cbn [lstrip].
  destruct (is_space c) eqn:Hc; [done|]. cbn [lstrip]. by rewrite Hc.
Qed.

Lemma rstrip_idempotent (s : string) : rstrip (rstrip s) = rstrip s.
Proof.
  induction s as [|c s IH]; [done|]. cbn [rstrip].
  destruct (rstrip s) as [|c' r] eqn:Hr.
  - destruct (is_space c) eqn:Hc; [done|]. cbn [rstrip]. by rewrite Hc.
  - cbn [rstrip]. cbn [rstrip] in IH. by rewrite IH.
Qed.

Lemma rstrip_lstrip (s : string) : rstrip s = s -> rstrip (lstrip s) = lstrip s.
Proof.
  induction s as [|c s IH]; [done|]. intros Hfix. cbn [lstrip].
  destruct (is_space c) eqn:Hc; [|done].
  apply IH. cbn [rstrip] in Hfix. rewrite Hc in Hfix.
  destruct (rstrip s) as [|c' r]; [done|]. by inversion Hfix.
Qed.

Lemma strip_idempotent (s : string) : strip (strip s) = strip s.
Proof.
  unfold strip. rewrite rstrip_lstrip by apply rstrip_idempotent.
  apply lstrip_idempotent.
Qed.

End MoreDirectiveFacts.

(** X15.  A directive written on one line is always found: whatever
    stands before and after it, a text that holds the tag [[SEARCH:], then
    a text without line feed, then a closing bracket makes the agent
    search. *)
Theorem single_line_directive_is_found (before body after : string) :
  single_line body = true ->
  is_Some (Directive.search_query (before +:+ "[SEARCH:" +:+ body +:+ "]" +:+ after)).
Proof.
  intros Hline. unfold Directive.search_query.
  assert (is_Some (Directive.re_search
                     (before +:+ "[SEARCH:" +:+ body +:+ "]" +:+ after))) as [g ->].
  { apply re_search_complete. unfold Directive.match_here.
    change "[SEARCH:" with Directive.TAG. rewrite drop_prefix_app. cbn.
    by apply spaces_then_group_complete, lazy_group_complete. }
  by eexists.
Qed.

Lemma single_line_directive_is_found_witness :
  is_Some (Directive.search_query
             ("Let me see. " +:+ "[SEARCH:" +:+ " weather in [London" +:+ "]" +:+ " ok")).
Proof.
  exact (single_line_directive_is_found "Let me see. " " weather in [London" " ok"
           eq_refl).
Defined.

(** X16.  A text without closing bracket holds no directive, so that a
    model output with an unterminated directive is final: the turn makes
    one model call and no search, yields the text character by character
    and records it, with the search enabled as well. *)
Theorem unterminated_directive_is_final `{Env : Environment}
    (input_data : BatchInput) (self : BasicMemoryAgent) (w : World) :
  let messages := _memory self ++ [user_message input_data] in
  let out := fst (chat_completion messages (_system self) w) in
  let r := run_turn input_data self w in
  failure out = None ->
  bracket_free (raw_of out) = true ->
  Directive.search_query (raw_of out) = None
  /\ fst r = Ok tt
  /\ trace (snd r)
     = EvModel messages (_system self) out :: (EvYield <$> PyStr.chars (raw_of out))
  /\ _memory (agent (snd r))
     = _memory self ++
         [msg "user" (_to_text_prompt input_data); msg "assistant" (raw_of out)].
Proof.
  intros messages out r Hok Hfree. subst r.
  assert (Directive.re_search (raw_of out) = None) as Hnone.
  { destruct (Directive.re_search (raw_of out)) as [g|] eqn:Hre; [|done].
    apply search_query_between in Hre as (b & body & a & Hraw & _).
    rewrite Hraw in Hfree. unfold bracket_free in Hfree.
    rewrite !PyStrFacts.forallb_app in Hfree.
    apply andb_true_iff in Hfree as [_ Hfree].
    apply andb_true_iff in Hfree as [_ Hfree].
    apply andb_true_iff in Hfree as [_ Hfree].
    apply andb_true_iff in Hfree as [Hfree _]. done. }
  split; [unfold Directive.search_query; by rewrite Hnone|].
  rewrite (single_round input_data self w).
  2:{ right. fold messages out. rewrite Hnone.
      by destruct (_enable_web_search self). }
  fold messages out. rewrite Hok. cbn [fst snd trace agent].
  split; [done|]. split; [done|]. by rewrite turn_agent_memory.
Qed.

Lemma unterminated_directive_is_final_witness :
  let env := Scripted.env [Scripted.reply "Wait. [SEARCH: never closed"] (Returned []) [] in
  let r := @run_turn env (Scripted.user_says "Hi") Scenario.searching_agent 0%nat in
  fst r = Ok tt
  /\ _memory (agent (snd r))
     = [msg "user" "Hi"; msg "assistant" "Wait. [SEARCH: never closed"].
Proof.
  intros env.
  destruct (@unterminated_directive_is_final env (Scripted.user_says "Hi")
              Scenario.searching_agent 0%nat eq_refl eq_refl)
    as (_ & Hok & _ & Hmemory).
  split; [exact Hok | exact Hmemory].
Defined.

(** X17.  The query that the agent sends to the search tool is trimmed
    and fits on one line: stripping it again changes nothing, and it holds
    neither a line feed nor a closing bracket. *)
Theorem search_query_is_trimmed_single_line (s query : string) :
  Directive.search_query s = Some query ->
  PyStr.strip query = query
  /\ single_line query = true
  /\ bracket_free query = true.
Proof.
  unfold Directive.search_query.
  destruct (Directive.re_search s) as [g|] eqn:Hre; [|done].
  cbn. intros [= <-]. destruct (re_search_group _ _ Hre) as [Hline Hfree].
  split; [apply strip_idempotent|]. unfold single_line, bracket_free, PyStr.strip in *.
  split; by apply forallb_lstrip, forallb_rstrip.
Qed.

Lemma search_query_is_trimmed_single_line_witness :
  PyStr.strip "latest AI news" = "latest AI news"
  /\ single_line "latest AI news" = true
  /\ bracket_free "latest AI news" = true.
Proof.
  exact (search_query_is_trimmed_single_line
           "I need to find that out. [SEARCH:   latest AI news  ]" "latest AI news"
           eq_refl).
Defined.

(** * The email sender *)

Ltac smtp_step :=
  match goal with
  | |- context [Email.perform ?c ?n] =>
      let raised := fresh "raised" in
      let net := fresh "net" in
      destruct (Email.perform c n) as [raised net] eqn:?;
      destruct raised as [[| |?]|]
  | |- context [Email.as_string ?b ?s ?f ?t] =>
      destruct (Email.as_string b s f t) as [[| |?]|?] eqn:?
  end.

Ltac smtp_unfold :=
  unfold Email.try_block, Email.bind, Email.call, Email.when, Email.eval,
    Email.print, Email.ret.

Ltac smtp_run := repeat (cbn [fst snd]; smtp_step).

(** A membership in a list written out that holds for no element. *)
Ltac no_member H :=
  rewrite ?elem_of_cons, ?elem_of_nil in H;
  repeat (destruct H as [H|H]; [discriminate H|]);
  first [contradiction | discriminate H].



(** X19.  When [send_email] returns [True], every step was made and none
    raised: the message was built, the log is the whole sequence of calls
    up to [quit], each without exception, followed by the line that
    reports the success, and the sender had a host and a port. *)
Theorem send_email_true_means_delivered `{Lib : Email.Library}
    (self : Email.EmailSender) (recipient_email subject body : string)
    (net : Email.Net) :
  let r := Email.send_email self recipient_email subject body net in
  fst (fst r) = true ->
  exists data,
    Email.as_string body subject (Email.username self) recipient_email = inr data
    /\ snd r
       = ((fun c => Email.Call c None) <$> Email.delivery self recipient_email data)
         ++ [Email.Print ("Email sent successfully to " +:+ recipient_email)]
    /\ Email.host self <> EmptyString
    /\ Email.port self <> 0%Z.
Proof.
  intros r. subst r. unfold Email.send_email.
  destruct (PyStr.truthy (Email.host self)) eqn:Hhost; [|done].
  destruct (Email.port self =? 0)%Z eqn:Hport; [done|].
  apply Z.eqb_neq in Hport. cbn [negb orb].
  assert (Email.host self <> EmptyString) as Hnonempty
    by (intros Hempty; by rewrite Hempty in Hhost).
  unfold Email.delivery, Email.opening. smtp_unfold.
  destruct (negb (Email.use_ssl self) && (Email.port self =? 587)%Z);
    destruct (truthy_opt (Email.username self) && truthy_opt (Email.password self));
    smtp_run; cbn; try done; intros _; by eexists.
Qed.

Lemma send_email_true_means_delivered_witness :
  let self := Email.mkEmailSender "smtp.example.com" 587 false None None in
  snd (@Email.send_email (Email.scripted (fun _ => None)) self
         "recipient@example.com" "Subject" "Body" 0%nat)
  = [Email.Call (Email.Connect false "smtp.example.com" 587) None;
     Email.Call Email.StartTls None;
     Email.Call (Email.Sendmail "noreply@example.com" "recipient@example.com"
                   ("Subject" +:+ PyStr.LF +:+ "Body")) None;
     Email.Call Email.Quit None;
     Email.Print "Email sent successfully to recipient@example.com"].
Proof.
  destruct (@send_email_true_means_delivered (Email.scripted (fun _ => None))
              (Email.mkEmailSender "smtp.example.com" 587 false None None)
              "recipient@example.com" "Subject" "Body" 0%nat eq_refl)
    as (data & Hdata & Hlog & _).
  inversion Hdata; subst data. exact Hlog.
Defined.

(** X20.  [send_email] returns [True] exactly when it called [quit] and
    [quit] returned.  So after a failure the connection, if one was
    opened, has not been closed by a [quit] that returned; and when [quit]
    itself raises, the result is [False] although [sendmail] went
    through. *)
Theorem send_email_true_iff_quit_returned `{Lib : Email.Library}
    (self : Email.EmailSender) (recipient_email subject body : string)
    (net : Email.Net) :
  let r := Email.send_email self recipient_email subject body net in
  (fst (fst r) = true <-> Email.Call Email.Quit None ∈ snd r)
  /\ (forall e, Email.Call Email.Quit (Some e) ∈ snd r ->
        fst (fst r) = false
        /\ exists data,
             Email.Call (Email.Sendmail (Email.envelope_sender self)
                           recipient_email data) None ∈ snd r).
Proof.
  intros r. subst r. unfold Email.send_email.
  assert (forall (b : bool) (log : list Email.Event) (P : Prop),
            (b = true <-> Email.Call Email.Quit None ∈ log) ->
            (forall e, Email.Call Email.Quit (Some e) ∈ log -> b = false /\ P) ->
            (b = true <-> Email.Call Email.Quit None ∈ log)
            /\ (forall e, Email.Call Email.Quit (Some e) ∈ log -> b = false /\ P))
    as Hboth by done.
  destruct (PyStr.truthy (Email.host self)) eqn:Hhost.
  2:{ cbn. apply Hboth.
      - split; [done|]. intros Hquit. no_member Hquit.
      - intros e Hquit. no_member Hquit. }
  destruct (Email.port self =? 0)%Z eqn:Hport.
  { cbn. apply Hboth.
    - split; [done|]. intros Hquit. no_member Hquit.
    - intros e Hquit. no_member Hquit. }
  cbn [negb orb]. smtp_unfold.
  destruct (negb (Email.use_ssl self) && (Email.port self =? 587)%Z);
    destruct (truthy_opt (Email.username self) && truthy_opt (Email.password self));
    smtp_run; cbn; apply Hboth;
    first
      [ split; [done|]; intros Hquit; no_member Hquit
      | split; [intros _|done];
        repeat first [apply list_elem_of_here | apply list_elem_of_further]
      | intros e' Hquit; exfalso; no_member Hquit
      | intros e' _; split; [done|]; eexists;
        repeat first [apply list_elem_of_here | apply list_elem_of_further] ].
Qed.

Lemma send_email_true_iff_quit_returned_witness :
  let fails := fun c => match c with
                        | Email.Quit => Some (Email.OtherException "timed out")
                        | _ => None
                        end in
  let self := Email.mkEmailSender "smtp.example.com" 465 true
                (Some "user@example.com") (Some "password123") in
  let r := @Email.send_email (Email.scripted fails) self
             "recipient@example.com" "Subject" "Body" 0%nat in
  fst (fst r) = false
  /\ exists data,
       Email.Call (Email.Sendmail "user@example.com" "recipient@example.com" data)
         None ∈ snd r.
Proof.
  intros fails self.
  destruct (@send_email_true_iff_quit_returned (Email.scripted fails) self
              "recipient@example.com" "Subject" "Body" 0%nat) as [_ Hquit].
  apply (Hquit (Email.OtherException "timed out")).
  vm_compute. do 3 apply list_elem_of_further. apply list_elem_of_here.
Defined.
